(** * VolTrayke: the application controller ([src/application.cpp])

    A shallow embedding of [Qtilities::Application].  The controller keeps
    two pointers, [engine_] and [channel_], and a set of Qt connections whose
    receiver is the application object.  Everything else it touches (the
    audio engines and devices, the popup menu, the tray icon, the preferences
    dialog, the settings object, the autostart file) lives in other
    translation units or in Qt; the controller only reads from those objects
    and calls their methods.

    The embedding therefore splits the machine state in three:
    - [App]: the members the controller itself assigns;
    - [World]: the state of all collaborators, abstract, reached through the
      read accessors of [Collaborators] and changed by [react] whenever the
      controller performs a [Call];
    - the list of [Call]s performed so far, oldest first.

    Dereferencing a null pointer and reading a [QList] out of range are
    undefined in C++; here they end the run with a [Fault].

    Signals are delivered one at a time: the slots of an emission run to
    completion before the next event is looked at, and a signal a
    collaborator raises in answer to a call is a later event of its own. *)

From Stdlib Require Import ZArith List String Bool Lia.
Import ListNotations.
Local Open Scope Z_scope.

(** ** Object handles and enumerations *)

(** [AudioEngine*] and [AudioDevice*]: non-null object addresses.  The
    members [engine_] and [channel_], which may be null, are options. *)
Definition Engine := nat.
Definition Device := nat.

(** The two concrete engine classes named in the [switch] of
    [onAudioEngineChanged]. *)
Inductive Backend : Type :=
| AlsaEngine
| PulseAudioEngine.

(** [QSystemTrayIcon::ActivationReason]. *)
Inductive ActivationReason : Type :=
| Unknown
| Context
| DoubleClick
| Trigger
| MiddleClick.

(** The widgets scheduled for deletion when the application quits. *)
Inductive Widget : Type :=
| mnuVolume_
| dlgAbout_
| dlgPrefs_
| trayIcon_.

(** ** Calls on collaborators

    One constructor per method the controller invokes on another object. *)
Inductive Call : Type :=
| new_engine (b : Backend) (e : Engine)
| setNormalized (e : Engine) (normalized : bool)
| updateDevice (e : Engine) (d : Device)
| setVolume (d : Device) (volume : Z)
| setMute (d : Device) (muted : bool)
| toggleMute (d : Device)
| MenuVolume_setVolume (volume : Z)
| MenuVolume_setMute (muted : bool)
| MenuVolume_setPageStep (n : Z)
| MenuVolume_setSingleStep (n : Z)
| MenuVolume_show
| MenuVolume_adjustSize
| MenuVolume_popUp
| setIcon (iconName : string)
| DialogPrefs_loadSettings
| DialogPrefs_saveSettings
| setDeviceList (descriptions : list string)
| Settings_load
| Settings_setUseAutostart (b : bool)
| Settings_save
| createAutostartFile
| deleteAutostartFile
| setChecked (b : bool)
| deleteLater (w : Widget).

(** Calls that reach the audio layer. *)
Definition is_audio_call (c : Call) : bool :=
  match c with
  | new_engine _ _ | setNormalized _ _ | updateDevice _ _
  | setVolume _ _ | setMute _ _ | toggleMute _ => true
  | _ => false
  end.

(** ** Qt connections made at run time *)

Inductive Sender : Type :=
| SDevice (d : Device)
| SEngine (e : Engine).

Inductive Signal : Type :=
| muteChanged
| volumeChanged
| sinkListChanged.

(** The three receivers connected after construction: the two lambdas of
    [onAudioDeviceChanged] and the member slot [onAudioDeviceListChanged]. *)
Inductive Slot : Type :=
| lambda_muteChanged
| lambda_volumeChanged
| slot_onAudioDeviceListChanged.

Record Connection : Type := mkConnection {
  conn_sender : Sender;
  conn_signal : Signal;
  conn_slot : Slot
}.

Definition Sender_eqb (a b : Sender) : bool :=
  match a, b with
  | SDevice x, SDevice y => Nat.eqb x y
  | SEngine x, SEngine y => Nat.eqb x y
  | _, _ => false
  end.

Definition Signal_eqb (a b : Signal) : bool :=
  match a, b with
  | muteChanged, muteChanged => true
  | volumeChanged, volumeChanged => true
  | sinkListChanged, sinkListChanged => true
  | _, _ => false
  end.

Definition Slot_eqb (a b : Slot) : bool :=
  match a, b with
  | lambda_muteChanged, lambda_muteChanged => true
  | lambda_volumeChanged, lambda_volumeChanged => true
  | slot_onAudioDeviceListChanged, slot_onAudioDeviceListChanged => true
  | _, _ => false
  end.

(** What a signal carries when it is emitted. *)
Inductive Emission : Type :=
| emit_muteChanged (muted : bool)
| emit_volumeChanged (volume : Z)
| emit_sinkListChanged.

Definition signal_of (em : Emission) : Signal :=
  match em with
  | emit_muteChanged _ => muteChanged
  | emit_volumeChanged _ => volumeChanged
  | emit_sinkListChanged => sinkListChanged
  end.

(** ** The controller's own members *)

Record App : Type := mkApp {
  engine_ : option Engine;
  channel_ : option Device;
  connections : list Connection
}.

(** ** Collaborators

    The interface the controller sees of the objects it does not define:
    the build configuration ([USE_ALSA], [USE_PULSEAUDIO], the [EngineId]
    enumerators), the getters it reads, the address the next [new] returns
    and the effect of each call on the collaborators. *)
Class Collaborators (World : Type) : Type := {
  USE_ALSA : bool;
  USE_PULSEAUDIO : bool;
  EngineId_Alsa : Z;
  EngineId_PulseAudio : Z;
  id : World -> Engine -> Z;
  sinks : World -> Engine -> list Device;
  volume : World -> Device -> Z;
  mute : World -> Device -> bool;
  description : World -> Device -> string;
  is_AlsaEngine : World -> Engine -> bool;
  is_AlsaDevice : World -> Device -> bool;
  engineId : World -> Z;
  channelId : World -> Z;
  isNormalized : World -> bool;
  pageStep : World -> Z;
  singleStep : World -> Z;
  useAutostart : World -> bool;
  muteOnMiddleClick : World -> bool;
  isChecked : World -> bool;
  operator_new : World -> Backend -> Engine;
  react : Call -> World -> World
}.

Inductive Fault : Type :=
| NullPointerDereference
| IndexOutOfRange.

Section Controller.

Context {World : Type} `{Collaborators World}.

Record Sys : Type := mkSys {
  app : App;
  world : World;
  calls : list Call
}.

Inductive Outcome (A : Type) : Type :=
| Done (a : A) (s : Sys)
| Crashed (f : Fault).

Arguments Done {A} a s.
Arguments Crashed {A} f.

(** A run of controller code: state passing with faults. *)
Definition M (A : Type) : Type := Sys -> Outcome A.

Definition ret {A : Type} (a : A) : M A := fun s => Done a s.

Definition bind {A B : Type} (c : M A) (k : A -> M B) : M B :=
  fun s => match c s with
           | Done a s' => k a s'
           | Crashed f => Crashed f
           end.

Notation "x <- c ;; k" := (bind c (fun x => k))
  (at level 61, c at next level, right associativity).
Notation "c ;; k" := (bind c (fun _ => k))
  (at level 61, right associativity).

Definition fail {A : Type} (f : Fault) : M A := fun _ => Crashed f.

Definition getApp : M App := fun s => Done (app s) s.
Definition getWorld : M World := fun s => Done (world s) s.

Definition putApp (a : App) : M unit :=
  fun s => Done tt (mkSys a (world s) (calls s)).

(** Perform a call on a collaborator. *)
Definition call (c : Call) : M unit :=
  fun s => Done tt (mkSys (app s) (react c (world s)) (calls s ++ [c])).

(** [p->...] for a pointer that may be null. *)
Definition deref {A : Type} (p : option A) : M A :=
  match p with
  | Some x => ret x
  | None => fail NullPointerDereference
  end.

(** [QList::at]: the index must lie in [0, size). *)
Definition at_ {A : Type} (l : list A) (i : Z) : M A :=
  if (0 <=? i) && (i <? Z.of_nat (List.length l)) then
    match nth_error l (Z.to_nat i) with
    | Some x => ret x
    | None => fail IndexOutOfRange
    end
  else fail IndexOutOfRange.

Definition set_engine_ (e : option Engine) : M unit :=
  a <- getApp ;; putApp (mkApp e (channel_ a) (connections a)).

Definition set_channel_ (d : option Device) : M unit :=
  a <- getApp ;; putApp (mkApp (engine_ a) d (connections a)).

(** [QObject::connect(sender, signal, this, slot)]: a new connection is
    appended, also when an equal one exists. *)
Definition connect (sender : Sender) (signal : Signal) (slot : Slot) : M unit :=
  a <- getApp ;;
  putApp (mkApp (engine_ a) (channel_ a)
                (connections a ++ [mkConnection sender signal slot])).

(** [QObject::disconnect(sender, signal, this, slot)]. *)
Definition matches (sender : Sender) (signal : Signal) (slot : Slot)
                   (c : Connection) : bool :=
  Sender_eqb (conn_sender c) sender
  && Signal_eqb (conn_signal c) signal
  && Slot_eqb (conn_slot c) slot.

Definition disconnect (sender : Sender) (signal : Signal) (slot : Slot) : M unit :=
  a <- getApp ;;
  putApp (mkApp (engine_ a) (channel_ a)
                (filter (fun c => negb (matches sender signal slot c))
                        (connections a))).

(** [QObject::disconnect(sender, nullptr, this, nullptr)]: every connection
    from [sender] goes. *)
Definition disconnect_all (sender : Sender) : M unit :=
  a <- getApp ;;
  putApp (mkApp (engine_ a) (channel_ a)
                (filter (fun c => negb (Sender_eqb (conn_sender c) sender))
                        (connections a))).

(** ** [Application::updateTrayIcon] (lines 292-305) *)

(** The icon name as a function of a volume and a mute flag, with the
    thresholds 0, 33 and 66; [updateTrayIcon] below is compared with it. *)
Definition iconNameFor (vol : Z) (muted : bool) : string :=
  if (vol <=? 0) || muted then "audio-volume-muted"%string
  else if vol <=? 33 then "audio-volume-low"%string
  else if vol <=? 66 then "audio-volume-medium"%string
  else "audio-volume-high"%string.

(** The method itself: [channel_] is dereferenced without a test; the
    getters are read from the collaborators as they are at that moment. *)
Definition updateTrayIcon : M unit :=
  a <- getApp ;;
  ch <- deref (channel_ a) ;;
  w <- getWorld ;;
  let iconName :=
    if (volume w ch <=? 0) || mute w ch then "audio-volume-muted"%string
    else if volume w ch <=? 33 then "audio-volume-low"%string
    else if volume w ch <=? 66 then "audio-volume-medium"%string
    else "audio-volume-high"%string in
  call (setIcon iconName).

(** ** The lambdas connected to the popup menu (lines 88-101) *)

Definition on_sigMuteToggled (muted : bool) : M unit :=
  a <- getApp ;;
  match channel_ a with
  | None => ret tt
  | Some ch => call (setMute ch muted) ;; updateTrayIcon
  end.

Definition on_sigVolumeChanged (vol : Z) : M unit :=
  a <- getApp ;;
  match channel_ a with
  | None => ret tt
  | Some ch => call (setVolume ch vol) ;; updateTrayIcon
  end.

(** ** [Application::onAudioDeviceListChanged] (lines 247-256) *)

Definition onAudioDeviceListChanged : M unit :=
  a <- getApp ;;
  match engine_ a with
  | Some e =>
      w <- getWorld ;;
      call (setDeviceList (map (description w) (sinks w e)))
  | None => ret tt
  end.

(** ** [Application::onAudioEngineChanged] (lines 190-225) *)

(** Lines 203-224: the [switch] over the compiled-in backends, then the
    set-up of the engine just created.  The [default] branch returns. *)
Definition install_engine (engineId : Z) : M unit :=
  let create (b : Backend) : M unit :=
    w <- getWorld ;;
    let e := operator_new w b in
    call (new_engine b e) ;;
    set_engine_ (Some e) ;;
    w <- getWorld ;;
    call (setNormalized e (isNormalized w)) ;;
    connect (SEngine e) sinkListChanged slot_onAudioDeviceListChanged in
  if USE_ALSA && (engineId =? EngineId_Alsa) then create AlsaEngine
  else if USE_PULSEAUDIO && (engineId =? EngineId_PulseAudio)
       then create PulseAudioEngine
  else set_engine_ None.

(** Lines 196-201: the previous engine and its channel are let go. *)
Definition release_engine (e : Engine) : M unit :=
  a <- getApp ;;
  match channel_ a with
  | Some ch => disconnect_all (SDevice ch) ;; set_channel_ None
  | None => ret tt
  end ;;
  disconnect (SEngine e) sinkListChanged slot_onAudioDeviceListChanged.

Definition onAudioEngineChanged (engineId : Z) : M unit :=
  a <- getApp ;;
  match engine_ a with
  | Some e =>
      w <- getWorld ;;
      if id w e =? engineId then ret tt
      else release_engine e ;; install_engine engineId
  | None => install_engine engineId
  end.

(** ** [Application::onAudioDeviceChanged] (lines 227-245) *)

Definition onAudioDeviceChanged (deviceId : Z) : M unit :=
  a <- getApp ;;
  match engine_ a with
  | None => ret tt
  | Some e =>
      w <- getWorld ;;
      if Z.of_nat (List.length (sinks w e)) <=? 0 then ret tt
      else
        let deviceId := if deviceId <? 0 then 0 else deviceId in
        ch <- at_ (sinks w e) deviceId ;;
        set_channel_ (Some ch) ;;
        connect (SDevice ch) muteChanged lambda_muteChanged ;;
        connect (SDevice ch) volumeChanged lambda_volumeChanged
  end.

(** ** [Application::onAboutToQuit] (lines 258-266) *)

Definition onAboutToQuit : M unit :=
  call DialogPrefs_saveSettings ;;
  w <- getWorld ;;
  call (Settings_setUseAutostart (isChecked w)) ;;
  w <- getWorld ;;
  (if useAutostart w then call createAutostartFile
   else call deleteAutostartFile) ;;
  call Settings_save.

(** ** [Application::onTrayIconActivated] (lines 268-279) *)

Definition onTrayIconActivated (reason : ActivationReason) : M unit :=
  match reason with
  | Trigger | DoubleClick =>
      call MenuVolume_show ;; call MenuVolume_adjustSize ;; call MenuVolume_popUp
  | _ =>
      a <- getApp ;;
      match channel_ a with
      | None => ret tt
      | Some ch =>
          w <- getWorld ;;
          if muteOnMiddleClick w then
            match reason with
            | MiddleClick => call (toggleMute ch)
            | _ => ret tt
            end
          else ret tt
      end
  end.

(** ** The lambda connected to [sigPrefsChanged] (lines 74-85) *)

Definition on_sigPrefsChanged : M unit :=
  (if USE_ALSA then
     a <- getApp ;;
     e <- deref (engine_ a) ;;
     w <- getWorld ;;
     call (setNormalized e (isNormalized w)) ;;
     w <- getWorld ;;
     match channel_ a with
     | Some d =>
         if is_AlsaEngine w e && is_AlsaDevice w d
         then call (updateDevice e d) else ret tt
     | None => ret tt
     end
   else ret tt) ;;
  w <- getWorld ;;
  call (MenuVolume_setPageStep (pageStep w)) ;;
  w <- getWorld ;;
  call (MenuVolume_setSingleStep (singleStep w)).

(** ** Signal delivery

    The bodies of the two lambdas of [onAudioDeviceChanged] (lines 237-244)
    and Qt's delivery of an emission: the connected slots run in the order
    in which they were connected. *)

Definition run_slot (slot : Slot) (em : Emission) : M unit :=
  match slot, em with
  | lambda_muteChanged, emit_muteChanged muted =>
      call (MenuVolume_setMute muted) ;; updateTrayIcon
  | lambda_volumeChanged, emit_volumeChanged vol =>
      call (MenuVolume_setVolume vol) ;; updateTrayIcon
  | slot_onAudioDeviceListChanged, emit_sinkListChanged =>
      onAudioDeviceListChanged
  | _, _ => ret tt
  end.

Fixpoint run_slots (l : list Connection) (em : Emission) : M unit :=
  match l with
  | [] => ret tt
  | c :: rest => run_slot (conn_slot c) em ;; run_slots rest em
  end.

Definition listens (sender : Sender) (signal : Signal) (c : Connection) : bool :=
  Sender_eqb (conn_sender c) sender && Signal_eqb (conn_signal c) signal.

Definition deliver (sender : Sender) (em : Emission) : M unit :=
  a <- getApp ;;
  run_slots (filter (listens sender (signal_of em)) (connections a)) em.

(** ** [Application::initUi] (lines 143-188) and the constructor

    Of [initUi] the part that touches the members and the audio layer is
    kept (lines 151-160 and 166); creating, centering and showing widgets
    and assembling the context menu are left out, and so is [initLocale]. *)

Definition initUi : M unit :=
  call Settings_load ;;
  call DialogPrefs_loadSettings ;;
  w <- getWorld ;;
  onAudioEngineChanged (engineId w) ;;
  w <- getWorld ;;
  onAudioDeviceChanged (channelId w) ;;
  onAudioDeviceListChanged ;;
  updateTrayIcon ;;
  a <- getApp ;;
  match channel_ a with
  | Some ch => w <- getWorld ;; call (MenuVolume_setVolume (volume w ch))
  | None => ret tt
  end ;;
  w <- getWorld ;;
  call (setChecked (useAutostart w)).

(** The member initialisers of the constructor (lines 49-50). *)
Definition startup (w : World) : Sys := mkSys (mkApp None None []) w [].

Definition Application_ctor : M unit := initUi.

(** ** Events the controller is wired to (lines 62-102)

    The signals connected in the constructor, and the emissions of the
    objects connected later.  [sigRunMixer] and the About and Preferences
    actions are left out: their slots start a process or show a dialog and
    touch neither the members nor the audio layer. *)

Inductive Event : Type :=
| sigEngineChanged (engineId : Z)
| sigChannelChanged (deviceId : Z)
| sigPrefsChanged
| sigMuteToggled (muted : bool)
| sigVolumeChanged (vol : Z)
| activated (reason : ActivationReason)
| aboutToQuit
| emitted (sender : Sender) (em : Emission).

Definition handle (ev : Event) : M unit :=
  match ev with
  | sigEngineChanged engineId => onAudioEngineChanged engineId
  | sigChannelChanged deviceId => onAudioDeviceChanged deviceId
  | sigPrefsChanged => on_sigPrefsChanged
  | sigMuteToggled muted => on_sigMuteToggled muted
  | sigVolumeChanged vol => on_sigVolumeChanged vol
  | activated reason => onTrayIconActivated reason
  | aboutToQuit =>
      call (deleteLater mnuVolume_) ;; call (deleteLater dlgAbout_) ;;
      call (deleteLater dlgPrefs_) ;; call (deleteLater trayIcon_) ;;
      onAboutToQuit
  | emitted sender em => deliver sender em
  end.

(** The controller states a run can be in: after the constructor, and after
    any event handled from such a state.  Between two events the
    collaborators may have changed in any way. *)
Inductive reachable : App -> Prop :=
| reachable_ctor (w : World) (s : Sys) :
    Application_ctor (startup w) = Done tt s -> reachable (app s)
| reachable_event (a : App) (w : World) (l : list Call) (ev : Event) (s : Sys) :
    reachable a -> handle ev (mkSys a w l) = Done tt s -> reachable (app s).

(** ** Vocabulary of the properties *)

(** The system after [updateTrayIcon] ran with [ch] selected. *)
Definition refreshed (ch : Device) (s : Sys) : Sys :=
  let name := iconNameFor (volume (world s) ch) (mute (world s) ch) in
  mkSys (app s) (react (setIcon name) (world s)) (calls s ++ [setIcon name]).

(** The system after one run of the [volumeChanged] lambda, and of the
    [muteChanged] lambda, with [ch] selected. *)
Definition volume_shown (ch : Device) (vol : Z) (s : Sys) : Sys :=
  refreshed ch (mkSys (app s) (react (MenuVolume_setVolume vol) (world s))
                      (calls s ++ [MenuVolume_setVolume vol])).

Definition mute_shown (ch : Device) (muted : bool) (s : Sys) : Sys :=
  refreshed ch (mkSys (app s) (react (MenuVolume_setMute muted) (world s))
                      (calls s ++ [MenuVolume_setMute muted])).

(** The system after lines 196-201 ran for the engine [e]: the channel's
    connections and the engine's connection are gone, the channel is null. *)
Definition released (e : Engine) (s : Sys) : Sys :=
  let kept :=
    match channel_ (app s) with
    | Some ch =>
        filter (fun c => negb (Sender_eqb (conn_sender c) (SDevice ch)))
               (connections (app s))
    | None => connections (app s)
    end in
  mkSys (mkApp (engine_ (app s)) None
               (filter (fun c => negb (matches (SEngine e) sinkListChanged
                                               slot_onAudioDeviceListChanged c))
                       kept))
        (world s) (calls s).

(** The system after an engine of class [b] was created and set up. *)
Definition created (b : Backend) (s : Sys) : Sys :=
  let e := operator_new (world s) b in
  let w1 := react (new_engine b e) (world s) in
  let n := isNormalized w1 in
  mkSys (mkApp (Some e) (channel_ (app s))
               (connections (app s)
                ++ [mkConnection (SEngine e) sinkListChanged
                                 slot_onAudioDeviceListChanged]))
        (react (setNormalized e n) w1)
        (calls s ++ [new_engine b e; setNormalized e n]).

(** The system after lines 203-224 ran for [engineId]. *)
Definition installed (engineId : Z) (s : Sys) : Sys :=
  if USE_ALSA && (engineId =? EngineId_Alsa) then created AlsaEngine s
  else if USE_PULSEAUDIO && (engineId =? EngineId_PulseAudio)
       then created PulseAudioEngine s
  else mkSys (mkApp None (channel_ (app s)) (connections (app s)))
             (world s) (calls s).

(** The three connections the controller ever makes. *)
Definition engine_conn (e : Engine) : Connection :=
  mkConnection (SEngine e) sinkListChanged slot_onAudioDeviceListChanged.

Definition mute_conn (d : Device) : Connection :=
  mkConnection (SDevice d) muteChanged lambda_muteChanged.

Definition volume_conn (d : Device) : Connection :=
  mkConnection (SDevice d) volumeChanged lambda_volumeChanged.

Definition from_engine (c : Connection) : bool :=
  match conn_sender c with
  | SEngine _ => true
  | SDevice _ => false
  end.

Definition known_conn (c : Connection) : Prop :=
  (exists e, c = engine_conn e) \/ (exists d, c = mute_conn d)
  \/ (exists d, c = volume_conn d).

(** The wiring invariant: only the three kinds of connection exist; the
    active engine, and no other, is connected to [onAudioDeviceListChanged],
    once; a channel is active only under an engine, and its two lambdas are
    connected. *)
Record wired (a : App) : Prop := mkWired {
  wired_known : Forall known_conn (connections a);
  wired_engine :
    filter from_engine (connections a) =
    match engine_ a with
    | Some e => [engine_conn e]
    | None => []
    end;
  wired_channel :
    forall ch, channel_ a = Some ch ->
      engine_ a <> None
      /\ In (mute_conn ch) (connections a)
      /\ In (volume_conn ch) (connections a)
}.

(** The state in which lines 203-224 always start: no channel, no engine
    connected. *)
Definition unplugged (a : App) : Prop :=
  Forall known_conn (connections a)
  /\ filter from_engine (connections a) = []
  /\ channel_ a = None.

(** A computation that leaves the controller's members alone, and one that
    keeps the wiring invariant, whenever it returns. *)
Definition keeps_app {A : Type} (c : M A) : Prop :=
  forall s a s', c s = Done a s' -> app s' = app s.

Definition keeps_wired {A : Type} (c : M A) : Prop :=
  forall s a s', c s = Done a s' -> wired (app s) -> wired (app s').

(** ** Vocabulary of the further properties *)

(** The device a call controls, when it is one of the three control calls
    of [AudioDevice]. *)
Definition controlled (c : Call) : option Device :=
  match c with
  | setVolume d _ | setMute d _ | toggleMute d => Some d
  | _ => None
  end.

(** A computation all of whose calls satisfy [P], whenever it returns. *)
Definition adds_only {A : Type} (P : Call -> Prop) (c : M A) : Prop :=
  forall s a s', c s = Done a s' ->
    exists added, calls s' = calls s ++ added /\ Forall P added.

(** An engine id for which the [switch] of [onAudioEngineChanged] takes the
    [default] branch. *)
Definition unsupported (engineId : Z) : Prop :=
  USE_ALSA && (engineId =? EngineId_Alsa) = false
  /\ USE_PULSEAUDIO && (engineId =? EngineId_PulseAudio) = false.

(** How many times the signal [sig] of the device [d] is connected. *)
Definition listeners (d : Device) (sig : Signal) (a : App) : nat :=
  List.length (filter (listens (SDevice d) sig) (connections a)).

(** The icon names [updateTrayIcon] chooses from. *)
Definition icon_names : list string :=
  ["audio-volume-muted"%string; "audio-volume-low"%string;
   "audio-volume-medium"%string; "audio-volume-high"%string].

(** The collaborators after a list of calls, oldest first. *)
Definition react_all (l : list Call) (w : World) : World :=
  fold_left (fun w c => react c w) l w.


(** The engine class the [switch] of [onAudioEngineChanged] creates for an
    id, if any. *)
Definition backend_for (engineId : Z) : option Backend :=
  if USE_ALSA && (engineId =? EngineId_Alsa) then Some AlsaEngine
  else if USE_PULSEAUDIO && (engineId =? EngineId_PulseAudio)
       then Some PulseAudioEngine
  else None.

(** The system when [initUi] has loaded the settings (lines 151-152). *)
Definition loaded (w : World) : Sys :=
  mkSys (mkApp None None [])
        (react DialogPrefs_loadSettings (react Settings_load w))
        [Settings_load; DialogPrefs_loadSettings].

(** The events that assign [engine_] or [channel_]. *)
Definition assigns_members (ev : Event) : bool :=
  match ev with
  | sigEngineChanged _ | sigChannelChanged _ => true
  | _ => false
  end.


(** A call that controls no device and, if it sets the tray icon, uses one
    of the four names. *)
Definition quiet (c : Call) : Prop :=
  controlled c = None /\ forall name, c = setIcon name -> In name icon_names.

(** A call that controls no device but [och], and, if it sets the tray
    icon, uses one of the four names. *)
Definition allowed (och : option Device) (c : Call) : Prop :=
  (forall d, controlled c = Some d -> och = Some d)
  /\ forall name, c = setIcon name -> In name icon_names.

End Controller.

Arguments Done {World A} a s.
Arguments Crashed {World A} f.

(** ** A small simulated desktop

    One instance of [Collaborators], used to run the controller on concrete
    inputs: both backends compiled in, every engine exposing the same list
    of sinks, one volume and one mute flag shared by the sinks. *)

Record SimWorld : Type := mkSim {
  sim_engineId : Z;
  sim_channelId : Z;
  sim_sinks : list Device;
  sim_volume : Z;
  sim_mute : bool;
  sim_useAutostart : bool;
  sim_muteOnMiddleClick : bool;
  sim_isChecked : bool
}.

Definition sim_react (c : Call) (w : SimWorld) : SimWorld :=
  match c with
  | setVolume _ v =>
      mkSim (sim_engineId w) (sim_channelId w) (sim_sinks w) v (sim_mute w)
            (sim_useAutostart w) (sim_muteOnMiddleClick w) (sim_isChecked w)
  | setMute _ m =>
      mkSim (sim_engineId w) (sim_channelId w) (sim_sinks w) (sim_volume w) m
            (sim_useAutostart w) (sim_muteOnMiddleClick w) (sim_isChecked w)
  | toggleMute _ =>
      mkSim (sim_engineId w) (sim_channelId w) (sim_sinks w) (sim_volume w)
            (negb (sim_mute w))
            (sim_useAutostart w) (sim_muteOnMiddleClick w) (sim_isChecked w)
  | Settings_setUseAutostart b =>
      mkSim (sim_engineId w) (sim_channelId w) (sim_sinks w) (sim_volume w)
            (sim_mute w) b (sim_muteOnMiddleClick w) (sim_isChecked w)
  | _ => w
  end.

#[export] Instance SimDesktop : Collaborators SimWorld := {|
  USE_ALSA := true;
  USE_PULSEAUDIO := true;
  EngineId_Alsa := 0;
  EngineId_PulseAudio := 1;
  id := fun _ e => if Nat.eqb e 100 then 0 else 1;
  sinks := fun w _ => sim_sinks w;
  volume := fun w _ => sim_volume w;
  mute := fun w _ => sim_mute w;
  description := fun _ d => if Nat.eqb d 7 then "Master"%string else "PCM"%string;
  is_AlsaEngine := fun _ e => Nat.eqb e 100;
  is_AlsaDevice := fun _ _ => true;
  engineId := sim_engineId;
  channelId := sim_channelId;
  isNormalized := fun _ => false;
  pageStep := fun _ => 10;
  singleStep := fun _ => 1;
  useAutostart := sim_useAutostart;
  muteOnMiddleClick := sim_muteOnMiddleClick;
  isChecked := sim_isChecked;
  operator_new := fun _ b => match b with AlsaEngine => 100%nat | PulseAudioEngine => 101%nat end;
  react := sim_react
|}.

(** A desktop with two sinks, volume 50, not muted, ALSA selected. *)
Definition desk : SimWorld := mkSim 0 1 [7%nat; 8%nat] 50 false true true true.

(** A desktop whose stored engine id names no compiled-in backend. *)
Definition desk_no_engine : SimWorld := mkSim 5 0 [7%nat; 8%nat] 50 false true true true.

(** A desktop whose stored channel id is past the end of the sink list. *)
Definition desk_stale_channel : SimWorld := mkSim 0 2 [7%nat; 8%nat] 50 false true true true.

(** A desktop on which the selected engine lists no sink. *)
Definition desk_no_sinks : SimWorld := mkSim 0 0 [] 50 false true true true.

(** The system as the constructor leaves it on [desk]: ALSA engine 100,
    channel 8, the three connections. *)
Definition booted : @Sys SimWorld :=
  mkSys (mkApp (Some 100%nat) (Some 8%nat)
               [engine_conn 100%nat; mute_conn 8%nat; volume_conn 8%nat])
        desk
        [Settings_load; DialogPrefs_loadSettings;
         new_engine AlsaEngine 100%nat; setNormalized 100%nat false;
         setDeviceList ["Master"%string; "PCM"%string];
         setIcon "audio-volume-medium"; MenuVolume_setVolume 50;
         setChecked true].

(** The system after sink 0 was selected from [booted]: channel 7, with
    the lambdas of device 8 still connected. *)
Definition reselected : @Sys SimWorld :=
  mkSys (mkApp (Some 100%nat) (Some 7%nat)
               [engine_conn 100%nat; mute_conn 8%nat; volume_conn 8%nat;
                mute_conn 7%nat; volume_conn 7%nat])
        desk [].

(** The system after a switch to PulseAudio from [reselected]: no channel,
    yet device 8 is still connected. *)
Definition stale : @Sys SimWorld :=
  mkSys (mkApp (Some 101%nat) None
               [mute_conn 8%nat; volume_conn 8%nat; engine_conn 101%nat])
        desk
        [new_engine PulseAudioEngine 101%nat; setNormalized 101%nat false].

(** The simulated desktop in a build without ALSA support. *)
Definition SimPulseOnly : Collaborators SimWorld := {|
  USE_ALSA := false;
  USE_PULSEAUDIO := true;
  EngineId_Alsa := 0;
  EngineId_PulseAudio := 1;
  id := fun _ e => if Nat.eqb e 100 then 0 else 1;
  sinks := fun w _ => sim_sinks w;
  volume := fun w _ => sim_volume w;
  mute := fun w _ => sim_mute w;
  description := fun _ d => if Nat.eqb d 7 then "Master"%string else "PCM"%string;
  is_AlsaEngine := fun _ e => Nat.eqb e 100;
  is_AlsaDevice := fun _ _ => true;
  engineId := sim_engineId;
  channelId := sim_channelId;
  isNormalized := fun _ => false;
  pageStep := fun _ => 10;
  singleStep := fun _ => 1;
  useAutostart := sim_useAutostart;
  muteOnMiddleClick := sim_muteOnMiddleClick;
  isChecked := sim_isChecked;
  operator_new := fun _ b => match b with AlsaEngine => 100%nat | PulseAudioEngine => 101%nat end;
  react := sim_react
|}.

(** * Properties *)

Section Properties.

Context {World : Type} `{Collaborators World}.

(** Unfold the plumbing of [M] and compute the record projections. *)
Ltac step_M :=
  cbv [bind ret fail getApp getWorld putApp call deref
       set_engine_ set_channel_ connect disconnect disconnect_all] in *;
  cbn [app world calls engine_ channel_ connections] in *.

Lemma calls_two (l : list Call) (a b : Call) :
  (l ++ [a]) ++ [b] = l ++ [a; b].
Proof. now rewrite <- app_assoc. Qed.

Lemma calls_three (l : list Call) (a b c : Call) :
  ((l ++ [a]) ++ [b]) ++ [c] = l ++ [a; b; c].
Proof. now rewrite <- !app_assoc. Qed.

Lemma updateTrayIcon_selected (s : @Sys World) (ch : Device) :
  channel_ (app s) = Some ch ->
  updateTrayIcon s = Done tt (refreshed ch s).
Proof.
  intros Hch. unfold updateTrayIcon, refreshed, iconNameFor.
  step_M. rewrite Hch. reflexivity.
Qed.

Lemma updateTrayIcon_null (s : @Sys World) :
  channel_ (app s) = None ->
  updateTrayIcon s = Crashed NullPointerDereference.
Proof.
  intros Hch. unfold updateTrayIcon. step_M. now rewrite Hch.
Qed.

(** C1. A volume delivered by the popup menu's [sigVolumeChanged]: with an
    active channel the controller calls [setVolume] with exactly that value
    on the channel and then sets the tray icon again (from the channel's
    volume and mute as they are after the call); without an active channel
    the whole system is left as it was. *)
Theorem menu_volume_event (s : @Sys World) (vol : Z) :
  handle (sigVolumeChanged vol) s =
  match channel_ (app s) with
  | Some ch =>
      let w1 := react (setVolume ch vol) (world s) in
      let name := iconNameFor (volume w1 ch) (mute w1 ch) in
      Done tt (mkSys (app s) (react (setIcon name) w1)
                     (calls s ++ [setVolume ch vol; setIcon name]))
  | None => Done tt s
  end.
Proof.
  cbn [handle]. unfold on_sigVolumeChanged.
  destruct (channel_ (app s)) as [ch|] eqn:Hch.
  - unfold bind at 1, getApp. rewrite Hch.
    unfold bind, call.
    rewrite (updateTrayIcon_selected _ ch) by exact Hch.
    unfold refreshed. cbn [app world calls]. now rewrite calls_two.
  - unfold bind, getApp. now rewrite Hch.
Qed.

(** C3. Tray-icon activation: [Trigger] and [DoubleClick] show, size and pop
    up the volume menu; [MiddleClick] calls [toggleMute] on the active
    channel exactly when there is one and mute-on-middle-click is enabled;
    in every other case nothing is called and nothing changes. *)
Theorem tray_icon_activation (s : @Sys World) (reason : ActivationReason) :
  handle (activated reason) s =
  match reason with
  | Trigger | DoubleClick =>
      Done tt (mkSys (app s)
                     (react MenuVolume_popUp
                        (react MenuVolume_adjustSize
                           (react MenuVolume_show (world s))))
                     (calls s ++ [MenuVolume_show; MenuVolume_adjustSize;
                                  MenuVolume_popUp]))
  | MiddleClick =>
      match channel_ (app s) with
      | Some ch =>
          if muteOnMiddleClick (world s)
          then Done tt (mkSys (app s) (react (toggleMute ch) (world s))
                              (calls s ++ [toggleMute ch]))
          else Done tt s
      | None => Done tt s
      end
  | Unknown | Context => Done tt s
  end.
Proof.
  cbn [handle]. unfold onTrayIconActivated.
  destruct reason; step_M;
    try (now rewrite calls_three);
    destruct (channel_ (app s)); try reflexivity;
    destruct (muteOnMiddleClick (world s)); reflexivity.
Qed.

Lemma onAudioEngineChanged_same (s : @Sys World) (e : Engine) (engineId : Z) :
  engine_ (app s) = Some e ->
  id (world s) e = engineId ->
  onAudioEngineChanged engineId s = Done tt s.
Proof.
  intros He Hid. unfold onAudioEngineChanged.
  step_M. rewrite He, Hid, Z.eqb_refl. reflexivity.
Qed.

(** C7. Asking for the engine whose id the active engine already reports
    changes nothing: members, connections, collaborators and the list of
    calls are the same afterwards. *)
Theorem same_engine_is_noop (s : @Sys World) (e : Engine) (engineId : Z) :
  engine_ (app s) = Some e ->
  id (world s) e = engineId ->
  handle (sigEngineChanged engineId) s = Done tt s.
Proof.
  intros He Hid. cbn [handle]. exact (onAudioEngineChanged_same s e engineId He Hid).
Qed.

(** C8. With an active channel, [updateTrayIcon] performs one call,
    [setIcon], and the icon name depends on the channel's volume and mute
    flag only: muted when the volume is at most 0 or the channel is muted,
    else low up to 33, medium up to 66, high above. *)
Theorem tray_icon_thresholds (s : @Sys World) (ch : Device) :
  channel_ (app s) = Some ch ->
  let v := volume (world s) ch in
  let m := mute (world s) ch in
  exists name : string,
    updateTrayIcon s =
      Done tt (mkSys (app s) (react (setIcon name) (world s))
                     (calls s ++ [setIcon name]))
    /\ name = iconNameFor v m
    /\ (v <= 0 \/ m = true -> name = "audio-volume-muted"%string)
    /\ (0 < v <= 33 -> m = false -> name = "audio-volume-low"%string)
    /\ (33 < v <= 66 -> m = false -> name = "audio-volume-medium"%string)
    /\ (66 < v -> m = false -> name = "audio-volume-high"%string).
Proof.
  intros Hch v m. exists (iconNameFor v m).
  split; [exact (updateTrayIcon_selected s ch Hch)|].
  split; [reflexivity|]. unfold iconNameFor.
  repeat split.
  - intros [Hv | Hm].
    + apply Z.leb_le in Hv. now rewrite Hv.
    + rewrite Hm. now rewrite orb_true_r.
  - intros [H0 H33] Hm. rewrite Hm.
    apply Z.leb_gt in H0. apply Z.leb_le in H33. now rewrite H0, H33.
  - intros [H33 H66] Hm. rewrite Hm.
    assert (H0 : (v <=? 0) = false) by (apply Z.leb_gt; lia).
    apply Z.leb_gt in H33. apply Z.leb_le in H66. now rewrite H0, H33, H66.
  - intros H66 Hm. rewrite Hm.
    assert (H0 : (v <=? 0) = false) by (apply Z.leb_gt; lia).
    assert (H33 : (v <=? 33) = false) by (apply Z.leb_gt; lia).
    apply Z.leb_gt in H66. now rewrite H0, H33, H66.
Qed.

(** ** Computations that do not touch the members *)

Lemma keeps_ret {A : Type} (x : A) : @keeps_app World A (ret x).
Proof. intros s a s' E. now inversion E. Qed.

Lemma keeps_fail {A : Type} (f : Fault) : @keeps_app World A (fail f).
Proof. intros s a s' E. discriminate E. Qed.

Lemma keeps_getApp : @keeps_app World App getApp.
Proof. intros s a s' E. now inversion E. Qed.

Lemma keeps_getWorld : @keeps_app World World getWorld.
Proof. intros s a s' E. now inversion E. Qed.

Lemma keeps_call (c : Call) : keeps_app (call c).
Proof. intros s a s' E. now inversion E. Qed.

Lemma keeps_deref {A : Type} (p : option A) : @keeps_app World A (deref p).
Proof. destruct p; [apply keeps_ret | apply keeps_fail]. Qed.

Lemma bind_Done {A B : Type} (c : @M World A) (k : A -> @M World B) s b s' :
  bind c k s = Done b s' ->
  exists a s1, c s = Done a s1 /\ k a s1 = Done b s'.
Proof.
  unfold bind. destruct (c s) as [a s1|f]; [|discriminate].
  intros E. now exists a, s1.
Qed.

Lemma keeps_bind {A B : Type} (c : @M World A) (k : A -> @M World B) :
  keeps_app c -> (forall a, keeps_app (k a)) -> keeps_app (bind c k).
Proof.
  intros Hc Hk s b s' E.
  apply bind_Done in E as (a & s1 & E1 & E2).
  rewrite (Hk a _ _ _ E2). exact (Hc _ _ _ E1).
Qed.

Ltac keeps :=
  repeat first
    [ apply keeps_ret | apply keeps_call | apply keeps_getApp
    | apply keeps_getWorld | apply keeps_fail | apply keeps_deref
    | assumption
    | apply keeps_bind; [| intros ?]
    | match goal with
      | |- keeps_app (match ?x with _ => _ end) => destruct x
      end ].

Lemma keeps_updateTrayIcon : keeps_app updateTrayIcon.
Proof. unfold updateTrayIcon. keeps. Qed.

Lemma keeps_on_sigMuteToggled muted : keeps_app (on_sigMuteToggled muted).
Proof. unfold on_sigMuteToggled. pose proof keeps_updateTrayIcon. keeps. Qed.

Lemma keeps_on_sigVolumeChanged vol : keeps_app (on_sigVolumeChanged vol).
Proof. unfold on_sigVolumeChanged. pose proof keeps_updateTrayIcon. keeps. Qed.

Lemma keeps_onAudioDeviceListChanged : keeps_app onAudioDeviceListChanged.
Proof. unfold onAudioDeviceListChanged. keeps. Qed.

Lemma keeps_onAboutToQuit : keeps_app onAboutToQuit.
Proof. unfold onAboutToQuit. keeps. Qed.

Lemma keeps_onTrayIconActivated reason : keeps_app (onTrayIconActivated reason).
Proof. unfold onTrayIconActivated. keeps. Qed.

Lemma keeps_on_sigPrefsChanged : keeps_app on_sigPrefsChanged.
Proof. unfold on_sigPrefsChanged. keeps. Qed.

Lemma keeps_run_slot slot em : keeps_app (run_slot slot em).
Proof.
  unfold run_slot.
  pose proof keeps_updateTrayIcon. pose proof keeps_onAudioDeviceListChanged.
  keeps.
Qed.

Lemma keeps_run_slots l em : keeps_app (run_slots l em).
Proof.
  induction l as [|c rest IH]; cbn [run_slots].
  - apply keeps_ret.
  - apply keeps_bind; [apply keeps_run_slot | intros _; exact IH].
Qed.

Lemma keeps_deliver sender em : keeps_app (deliver sender em).
Proof.
  unfold deliver. apply keeps_bind; [apply keeps_getApp|].
  intros a. apply keeps_run_slots.
Qed.

(** ** The two handlers that assign the members *)

Lemma release_engine_Done (s : @Sys World) (e : Engine) :
  release_engine e s = Done tt (released e s).
Proof.
  unfold release_engine, released. step_M.
  destruct (channel_ (app s)) eqn:Hch; cbn; rewrite ?Hch; reflexivity.
Qed.

Lemma install_engine_Done (s : @Sys World) (engineId : Z) :
  install_engine engineId s = Done tt (installed engineId s).
Proof.
  unfold install_engine, installed, created. step_M.
  destruct (USE_ALSA && (engineId =? EngineId_Alsa));
    [now rewrite calls_two|].
  destruct (USE_PULSEAUDIO && (engineId =? EngineId_PulseAudio));
    [now rewrite calls_two|].
  reflexivity.
Qed.

Lemma onAudioEngineChanged_switch (s : @Sys World) (e : Engine) (engineId : Z) :
  engine_ (app s) = Some e ->
  id (world s) e <> engineId ->
  onAudioEngineChanged engineId s = Done tt (installed engineId (released e s)).
Proof.
  intros He Hid. unfold onAudioEngineChanged.
  unfold bind at 1, getApp. rewrite He.
  unfold bind at 1, getWorld.
  apply Z.eqb_neq in Hid. rewrite Hid.
  unfold bind. rewrite release_engine_Done. apply install_engine_Done.
Qed.

Lemma onAudioEngineChanged_first (s : @Sys World) (engineId : Z) :
  engine_ (app s) = None ->
  onAudioEngineChanged engineId s = Done tt (installed engineId s).
Proof.
  intros He. unfold onAudioEngineChanged.
  unfold bind at 1, getApp. rewrite He. apply install_engine_Done.
Qed.

(** A device change that finds a sink at the index: the sink becomes the
    channel and its two signals are connected. *)
Lemma onAudioDeviceChanged_selects (s : @Sys World) (e : Engine)
      (deviceId : Z) (ch : Device) :
  engine_ (app s) = Some e ->
  nth_error (sinks (world s) e) (Z.to_nat (Z.max 0 deviceId)) = Some ch ->
  onAudioDeviceChanged deviceId s =
  Done tt (mkSys (mkApp (Some e) (Some ch)
                        (connections (app s) ++ [mute_conn ch; volume_conn ch]))
                 (world s) (calls s)).
Proof.
  intros He Hnth. unfold onAudioDeviceChanged, at_. step_M. rewrite He.
  assert (Hlt : (Z.to_nat (Z.max 0 deviceId) < List.length (sinks (world s) e))%nat)
    by (apply nth_error_Some; congruence).
  destruct (Z.leb_spec (Z.of_nat (List.length (sinks (world s) e))) 0); [lia|].
  replace (if deviceId <? 0 then 0 else deviceId) with (Z.max 0 deviceId)
    by (destruct (Z.ltb_spec deviceId 0); lia).
  destruct (Z.leb_spec 0 (Z.max 0 deviceId)); [|lia].
  destruct (Z.ltb_spec (Z.max 0 deviceId)
                       (Z.of_nat (List.length (sinks (world s) e)))); [|lia].
  cbn [andb]. rewrite Hnth. cbn. rewrite He.
  unfold mute_conn, volume_conn. now rewrite <- app_assoc.
Qed.

(** A device change that returns has either done nothing or selected a
    sink. *)
Lemma onAudioDeviceChanged_Done (s s' : @Sys World) (deviceId : Z) :
  onAudioDeviceChanged deviceId s = Done tt s' ->
  s' = s
  \/ exists e ch,
       engine_ (app s) = Some e
       /\ s' = mkSys (mkApp (Some e) (Some ch)
                            (connections (app s) ++ [mute_conn ch; volume_conn ch]))
                     (world s) (calls s).
Proof.
  unfold onAudioDeviceChanged, at_. step_M.
  destruct (engine_ (app s)) as [e|] eqn:He.
  2:{ intros E. left. now inversion E. }
  destruct (Z.of_nat (List.length (sinks (world s) e)) <=? 0).
  { intros E. left. now inversion E. }
  destruct ((0 <=? (if deviceId <? 0 then 0 else deviceId))
            && ((if deviceId <? 0 then 0 else deviceId)
                <? Z.of_nat (List.length (sinks (world s) e)))); [|discriminate].
  destruct (nth_error (sinks (world s) e)
                      (Z.to_nat (if deviceId <? 0 then 0 else deviceId)))
    as [ch|]; [|discriminate].
  cbn. rewrite He. intros E. right. exists e, ch. split; [reflexivity|].
  inversion E. unfold mute_conn, volume_conn. now rewrite <- app_assoc.
Qed.

(** ** The wiring invariant *)

Lemma filter_swap {A : Type} (p q : A -> bool) (l : list A) :
  filter p (filter q l) = filter q (filter p l).
Proof.
  induction l as [|x l IH]; [reflexivity|]. cbn [filter].
  destruct (q x) eqn:Eq, (p x) eqn:Ep; cbn [filter];
    rewrite ?Eq, ?Ep, IH; reflexivity.
Qed.

Lemma Forall_filter_keep {A : Type} (P : A -> Prop) (f : A -> bool) (l : list A) :
  Forall P l -> Forall P (filter f l).
Proof.
  rewrite !Forall_forall. intros HP x Hx.
  apply filter_In in Hx. now apply HP.
Qed.

Lemma filter_narrow {A : Type} (p q : A -> bool) (l : list A) :
  (forall x, p x = true -> q x = true) ->
  filter p l = filter p (filter q l).
Proof.
  intros Hpq. induction l as [|x l IH]; [reflexivity|]. cbn [filter].
  destruct (p x) eqn:Ep.
  - rewrite (Hpq x Ep). cbn [filter]. now rewrite Ep, IH.
  - destruct (q x); [cbn [filter]; rewrite Ep|]; exact IH.
Qed.

Lemma known_engine_conn e : known_conn (engine_conn e).
Proof. left. now exists e. Qed.

Lemma known_mute_conn d : known_conn (mute_conn d).
Proof. right. left. now exists d. Qed.

Lemma known_volume_conn d : known_conn (volume_conn d).
Proof. right. right. now exists d. Qed.

Lemma wired_startup : wired (mkApp None None []).
Proof.
  constructor; cbn.
  - constructor.
  - reflexivity.
  - discriminate.
Qed.

Lemma released_unplugged (s : @Sys World) (e : Engine) :
  wired (app s) -> engine_ (app s) = Some e -> unplugged (app (released e s)).
Proof.
  intros [Hk He Hc] Heng. rewrite Heng in He.
  unfold released, unplugged. cbn [app connections channel_].
  split; [|split; [|reflexivity]].
  - apply Forall_filter_keep. destruct (channel_ (app s)); [|exact Hk].
    now apply Forall_filter_keep.
  - rewrite filter_swap.
    assert (Hkept :
      filter from_engine
        match channel_ (app s) with
        | Some ch =>
            filter (fun c => negb (Sender_eqb (conn_sender c) (SDevice ch)))
                   (connections (app s))
        | None => connections (app s)
        end = [engine_conn e]).
    { destruct (channel_ (app s)); [|exact He].
      rewrite filter_swap, He. reflexivity. }
    rewrite Hkept. unfold engine_conn, matches. cbn. now rewrite Nat.eqb_refl.
Qed.

Lemma wired_unplugged (a : App) :
  wired a -> engine_ a = None -> unplugged a.
Proof.
  intros [Hk He Hc] Heng. rewrite Heng in He.
  split; [exact Hk|]. split; [exact He|].
  destruct (channel_ a) as [ch|] eqn:Hch; [|reflexivity].
  destruct (Hc ch eq_refl) as [Hne _]. contradiction.
Qed.

Lemma created_wired (s : @Sys World) (b : Backend) :
  unplugged (app s) -> wired (app (created b s)).
Proof.
  intros (Hk & He & Hc). unfold created. cbn [app].
  constructor; cbn [connections engine_ channel_].
  - apply Forall_app. split; [exact Hk|].
    constructor; [apply known_engine_conn | constructor].
  - rewrite filter_app, He. reflexivity.
  - intros ch Hch. congruence.
Qed.

Lemma installed_wired (s : @Sys World) (engineId : Z) :
  unplugged (app s) -> wired (app (installed engineId s)).
Proof.
  intros Hu. unfold installed.
  destruct (USE_ALSA && (engineId =? EngineId_Alsa));
    [now apply created_wired|].
  destruct (USE_PULSEAUDIO && (engineId =? EngineId_PulseAudio));
    [now apply created_wired|].
  destruct Hu as (Hk & He & Hc).
  constructor; cbn [app connections engine_ channel_];
    [exact Hk | exact He | congruence].
Qed.

Lemma installed_channel (s : @Sys World) (engineId : Z) :
  channel_ (app (installed engineId s)) = channel_ (app s).
Proof.
  unfold installed, created.
  destruct (USE_ALSA && (engineId =? EngineId_Alsa)); [reflexivity|].
  destruct (USE_PULSEAUDIO && (engineId =? EngineId_PulseAudio)); reflexivity.
Qed.

Lemma keeps_app_wired {A : Type} (c : @M World A) :
  keeps_app c -> keeps_wired c.
Proof. intros Hc s a s' E Hw. now rewrite (Hc _ _ _ E). Qed.

Lemma keeps_wired_bind {A B : Type} (c : @M World A) (k : A -> @M World B) :
  keeps_wired c -> (forall a, keeps_wired (k a)) -> keeps_wired (bind c k).
Proof.
  intros Hc Hk s b s' E Hw.
  apply bind_Done in E as (a & s1 & E1 & E2).
  exact (Hk a _ _ _ E2 (Hc _ _ _ E1 Hw)).
Qed.

Lemma wired_onAudioEngineChanged engineId :
  keeps_wired (onAudioEngineChanged engineId).
Proof.
  intros s [] s' E Hw.
  destruct (engine_ (app s)) as [e|] eqn:He.
  - destruct (Z.eq_dec (id (world s) e) engineId) as [Hid|Hid].
    + rewrite (onAudioEngineChanged_same s e engineId He Hid) in E.
      injection E as <-. exact Hw.
    + rewrite (onAudioEngineChanged_switch s e engineId He Hid) in E.
      injection E as <-. apply installed_wired. now apply released_unplugged.
  - rewrite (onAudioEngineChanged_first s engineId He) in E.
    injection E as <-. apply installed_wired. now apply wired_unplugged.
Qed.

Lemma wired_onAudioDeviceChanged deviceId :
  keeps_wired (onAudioDeviceChanged deviceId).
Proof.
  intros s [] s' E [Hk He Hc].
  apply onAudioDeviceChanged_Done in E as [-> | (e & ch & Heng & ->)].
  - now constructor.
  - rewrite Heng in He.
    constructor; cbn [app connections engine_ channel_].
    + apply Forall_app. split; [exact Hk|].
      constructor; [apply known_mute_conn|].
      constructor; [apply known_volume_conn | constructor].
    + rewrite filter_app, He. reflexivity.
    + intros ch' Hch'. inversion Hch'; subst ch'.
      split; [discriminate|].
      split; apply in_or_app; right; cbn; auto.
Qed.

Lemma wired_handle ev : keeps_wired (handle ev).
Proof.
  destruct ev; cbn [handle].
  - apply wired_onAudioEngineChanged.
  - apply wired_onAudioDeviceChanged.
  - apply keeps_app_wired, keeps_on_sigPrefsChanged.
  - apply keeps_app_wired, keeps_on_sigMuteToggled.
  - apply keeps_app_wired, keeps_on_sigVolumeChanged.
  - apply keeps_app_wired, keeps_onTrayIconActivated.
  - apply keeps_app_wired. pose proof keeps_onAboutToQuit. keeps.
  - apply keeps_app_wired, keeps_deliver.
Qed.

Lemma wired_initUi : keeps_wired initUi.
Proof.
  unfold initUi.
  repeat (apply keeps_wired_bind;
          [first [ apply wired_onAudioEngineChanged
                 | apply wired_onAudioDeviceChanged
                 | apply keeps_app_wired;
                   pose proof keeps_updateTrayIcon;
                   pose proof keeps_onAudioDeviceListChanged; keeps ]
          | intros ? ]).
  apply keeps_app_wired. keeps.
Qed.

Lemma reachable_wired (a : App) : reachable a -> wired a.
Proof.
  induction 1 as [w s E | a w l ev s Hr IH E].
  - exact (wired_initUi _ _ _ E wired_startup).
  - exact (wired_handle ev _ _ _ E IH).
Qed.

(** ** Engine switch *)

Lemma Sender_eqb_refl (x : Sender) : Sender_eqb x x = true.
Proof. destruct x; cbn; apply Nat.eqb_refl. Qed.

Lemma released_drops_channel (s : @Sys World) (e : Engine) (ch : Device) :
  channel_ (app s) = Some ch ->
  forall c, In c (connections (app (released e s))) ->
            conn_sender c <> SDevice ch.
Proof.
  intros Hch c Hin. unfold released in Hin.
  cbn [app connections] in Hin. rewrite Hch in Hin.
  apply filter_In in Hin as [Hin _].
  apply filter_In in Hin as [_ Hne].
  intros Heq. rewrite Heq, Sender_eqb_refl in Hne. discriminate Hne.
Qed.

Lemma installed_connections (s : @Sys World) (engineId : Z) (c : Connection) :
  In c (connections (app (installed engineId s))) ->
  In c (connections (app s)) \/ exists e, conn_sender c = SEngine e.
Proof.
  unfold installed, created.
  destruct (USE_ALSA && (engineId =? EngineId_Alsa)).
  { cbn [app connections]. intros Hin.
    apply in_app_or in Hin as [Hin | [<- | []]]; [now left|].
    right. eexists. reflexivity. }
  destruct (USE_PULSEAUDIO && (engineId =? EngineId_PulseAudio)).
  { cbn [app connections]. intros Hin.
    apply in_app_or in Hin as [Hin | [<- | []]]; [now left|].
    right. eexists. reflexivity. }
  cbn [app connections]. now left.
Qed.

(** C2. Switching to an engine id other than the active engine's: first the
    active channel's connections are removed and [channel_] is set to null,
    with the old engine still in place and nothing called yet; only then
    is the new engine created and installed.  Afterwards no channel is
    active and no connection from the old channel is left. *)
Theorem engine_switch_lets_channel_go (s : @Sys World) (e : Engine) (engineId : Z) :
  engine_ (app s) = Some e ->
  id (world s) e <> engineId ->
  let s0 := released e s in
  let s1 := installed engineId s0 in
  release_engine e s = Done tt s0
  /\ engine_ (app s0) = Some e
  /\ channel_ (app s0) = None
  /\ world s0 = world s
  /\ calls s0 = calls s
  /\ (forall ch, channel_ (app s) = Some ch ->
        forall c, In c (connections (app s0)) -> conn_sender c <> SDevice ch)
  /\ handle (sigEngineChanged engineId) s = install_engine engineId s0
  /\ install_engine engineId s0 = Done tt s1
  /\ channel_ (app s1) = None
  /\ (forall ch, channel_ (app s) = Some ch ->
        forall c, In c (connections (app s1)) -> conn_sender c <> SDevice ch).
Proof.
  intros He Hid s0 s1.
  split; [apply release_engine_Done|].
  split; [exact He|].
  split; [reflexivity|].
  split; [reflexivity|].
  split; [reflexivity|].
  split; [intros ch Hch; now apply released_drops_channel|].
  split.
  { cbn [handle]. rewrite (onAudioEngineChanged_switch s e engineId He Hid).
    symmetry. apply install_engine_Done. }
  split; [apply install_engine_Done|].
  split; [unfold s1; now rewrite installed_channel|].
  intros ch Hch c Hin.
  apply installed_connections in Hin as [Hin | [e' He']].
  - now apply (released_drops_channel s e ch Hch).
  - rewrite He'. discriminate.
Qed.

(** ** Sink list and channel events *)

Lemma onAudioDeviceListChanged_Done (s : @Sys World) :
  onAudioDeviceListChanged s =
  match engine_ (app s) with
  | Some e =>
      let ds := map (description (world s)) (sinks (world s) e) in
      Done tt (mkSys (app s) (react (setDeviceList ds) (world s))
                     (calls s ++ [setDeviceList ds]))
  | None => Done tt s
  end.
Proof.
  unfold onAudioDeviceListChanged. step_M.
  destruct (engine_ (app s)); reflexivity.
Qed.

Lemma listens_engine (e : Engine) (sig : Signal) (c : Connection) :
  listens (SEngine e) sig c = true -> from_engine c = true.
Proof.
  unfold listens, from_engine. destruct (conn_sender c); cbn; congruence.
Qed.

Lemma wired_engine_listeners (a : App) (e : Engine) :
  wired a -> engine_ a = Some e ->
  filter (listens (SEngine e) sinkListChanged) (connections a) = [engine_conn e].
Proof.
  intros [_ He _] Heng. rewrite Heng in He.
  rewrite (filter_narrow _ from_engine) by apply listens_engine.
  rewrite He. unfold listens, engine_conn. cbn. now rewrite Nat.eqb_refl.
Qed.

(** C4. When the active engine emits [sinkListChanged], the controller
    makes one call, [setDeviceList], with the descriptions of the engine's
    sinks as the engine lists them at that moment, in that order; with no
    engine active [onAudioDeviceListChanged] changes nothing. *)
Theorem sink_list_event_rebuilds_device_list (a : App) (w : World) (l : list Call) :
  reachable a ->
  match engine_ a with
  | Some e =>
      let ds := map (description w) (sinks w e) in
      handle (emitted (SEngine e) emit_sinkListChanged) (mkSys a w l) =
      Done tt (mkSys a (react (setDeviceList ds) w) (l ++ [setDeviceList ds]))
  | None =>
      onAudioDeviceListChanged (mkSys a w l) = Done tt (mkSys a w l)
  end.
Proof.
  intros Hr. apply reachable_wired in Hr.
  destruct (engine_ a) as [e|] eqn:He.
  - cbn [handle]. unfold deliver. unfold bind at 1, getApp. cbn [app signal_of].
    rewrite (wired_engine_listeners a e Hr He).
    cbn [run_slots engine_conn conn_slot run_slot]. unfold bind.
    rewrite onAudioDeviceListChanged_Done. cbn [app world calls].
    rewrite He. reflexivity.
  - rewrite onAudioDeviceListChanged_Done. cbn [app]. now rewrite He.
Qed.

Lemma run_volume_lambda (s : @Sys World) (ch : Device) (vol : Z) :
  channel_ (app s) = Some ch ->
  run_slot lambda_volumeChanged (emit_volumeChanged vol) s =
  Done tt (volume_shown ch vol s).
Proof.
  intros Hch. cbn [run_slot]. unfold bind, call.
  now rewrite (updateTrayIcon_selected _ ch).
Qed.

Lemma run_mute_lambda (s : @Sys World) (ch : Device) (muted : bool) :
  channel_ (app s) = Some ch ->
  run_slot lambda_muteChanged (emit_muteChanged muted) s =
  Done tt (mute_shown ch muted s).
Proof.
  intros Hch. cbn [run_slot]. unfold bind, call.
  now rewrite (updateTrayIcon_selected _ ch).
Qed.

Lemma run_slots_same (slot : Slot) (em : Emission) (f : @Sys World -> @Sys World)
      (P : @Sys World -> Prop) :
  (forall s, P s -> run_slot slot em s = Done tt (f s) /\ P (f s)) ->
  forall (l : list Connection) (s : @Sys World),
    Forall (fun c => conn_slot c = slot) l -> P s ->
    run_slots l em s = Done tt (Nat.iter (List.length l) f s).
Proof.
  intros Hf. induction l as [|c rest IH]; intros s Hall HP.
  - reflexivity.
  - apply Forall_cons_iff in Hall as [Hc Hrest].
    cbn [run_slots List.length]. rewrite Nat.iter_succ_r.
    unfold bind. rewrite Hc. destruct (Hf s HP) as [-> HP'].
    now apply IH.
Qed.

Lemma volume_listeners (a : App) (ch : Device) :
  wired a -> channel_ a = Some ch ->
  let l := filter (listens (SDevice ch) volumeChanged) (connections a) in
  (1 <= List.length l)%nat /\ Forall (fun c => conn_slot c = lambda_volumeChanged) l.
Proof.
  intros [Hk _ Hc] Hch l. split.
  - destruct (Hc ch Hch) as (_ & _ & Hin).
    assert (Hl : In (volume_conn ch) l).
    { apply filter_In. split; [exact Hin|].
      unfold listens, volume_conn. cbn. now rewrite Nat.eqb_refl. }
    destruct l; [destruct Hl | cbn; lia].
  - apply Forall_forall. intros c Hin. apply filter_In in Hin as [Hin Hl].
    rewrite Forall_forall in Hk.
    destruct (Hk c Hin) as [[e ->] | [[d ->] | [d ->]]];
      cbn in Hl; try discriminate; try reflexivity.
    unfold listens in Hl. cbn in Hl. rewrite andb_false_r in Hl. discriminate.
Qed.

Lemma mute_listeners (a : App) (ch : Device) :
  wired a -> channel_ a = Some ch ->
  let l := filter (listens (SDevice ch) muteChanged) (connections a) in
  (1 <= List.length l)%nat /\ Forall (fun c => conn_slot c = lambda_muteChanged) l.
Proof.
  intros [Hk _ Hc] Hch l. split.
  - destruct (Hc ch Hch) as (_ & Hin & _).
    assert (Hl : In (mute_conn ch) l).
    { apply filter_In. split; [exact Hin|].
      unfold listens, mute_conn. cbn. now rewrite Nat.eqb_refl. }
    destruct l; [destruct Hl | cbn; lia].
  - apply Forall_forall. intros c Hin. apply filter_In in Hin as [Hin Hl].
    rewrite Forall_forall in Hk.
    destruct (Hk c Hin) as [[e ->] | [[d ->] | [d ->]]];
      cbn in Hl; try discriminate; try reflexivity.
    unfold listens in Hl. cbn in Hl. rewrite andb_false_r in Hl. discriminate.
Qed.

(** C5. While a channel is active, each [volumeChanged] and each
    [muteChanged] it emits makes the controller pass the emitted value to
    the popup menu ([setVolume], resp. [setMute]) and then set the tray icon
    again; this happens once per time the channel was connected, which is
    at least once. *)
Theorem channel_events_reach_menu_and_icon (a : App) (ch : Device)
        (w : World) (l : list Call) :
  reachable a ->
  channel_ a = Some ch ->
  let s := mkSys a w l in
  (forall vol,
      let n := List.length (filter (listens (SDevice ch) volumeChanged)
                                   (connections a)) in
      (1 <= n)%nat
      /\ handle (emitted (SDevice ch) (emit_volumeChanged vol)) s =
         Done tt (Nat.iter n (volume_shown ch vol) s))
  /\ (forall muted,
      let n := List.length (filter (listens (SDevice ch) muteChanged)
                                   (connections a)) in
      (1 <= n)%nat
      /\ handle (emitted (SDevice ch) (emit_muteChanged muted)) s =
         Done tt (Nat.iter n (mute_shown ch muted) s))
  /\ (forall vol s',
      calls (volume_shown ch vol s') =
      calls s' ++ [MenuVolume_setVolume vol;
                   setIcon (iconNameFor
                              (volume (react (MenuVolume_setVolume vol) (world s')) ch)
                              (mute (react (MenuVolume_setVolume vol) (world s')) ch))])
  /\ (forall muted s',
      calls (mute_shown ch muted s') =
      calls s' ++ [MenuVolume_setMute muted;
                   setIcon (iconNameFor
                              (volume (react (MenuVolume_setMute muted) (world s')) ch)
                              (mute (react (MenuVolume_setMute muted) (world s')) ch))]).
Proof.
  intros Hr Hch s. apply reachable_wired in Hr.
  split; [|split; [|split]].
  - intros vol n.
    destruct (volume_listeners a ch Hr Hch) as [Hn Hall].
    split; [exact Hn|].
    cbn [handle]. unfold deliver. unfold bind at 1, getApp. cbn [app signal_of].
    apply (run_slots_same lambda_volumeChanged (emit_volumeChanged vol)
             (volume_shown ch vol) (fun s => channel_ (app s) = Some ch)).
    + intros s' Hs'. split; [now apply run_volume_lambda | exact Hs'].
    + exact Hall.
    + exact Hch.
  - intros muted n.
    destruct (mute_listeners a ch Hr Hch) as [Hn Hall].
    split; [exact Hn|].
    cbn [handle]. unfold deliver. unfold bind at 1, getApp. cbn [app signal_of].
    apply (run_slots_same lambda_muteChanged (emit_muteChanged muted)
             (mute_shown ch muted) (fun s => channel_ (app s) = Some ch)).
    + intros s' Hs'. split; [now apply run_mute_lambda | exact Hs'].
    + exact Hall.
    + exact Hch.
  - intros vol s'. unfold volume_shown, refreshed. cbn [calls world].
    now rewrite calls_two.
  - intros muted s'. unfold mute_shown, refreshed. cbn [calls world].
    now rewrite calls_two.
Qed.

(** ** Quit *)

(** C6. On quit the controller makes four calls, in this order: the
    preferences dialog saves its settings, the autostart flag is set to the
    checked state of the autostart action, the autostart file is created
    when the settings then report the flag set and deleted otherwise, and
    the settings are saved.  None of the four is a call to the audio layer,
    and the members are untouched. *)
Theorem quit_saves_preferences (s : @Sys World) :
  let w1 := react DialogPrefs_saveSettings (world s) in
  let flag := isChecked w1 in
  let w2 := react (Settings_setUseAutostart flag) w1 in
  let file := if useAutostart w2 then createAutostartFile
              else deleteAutostartFile in
  let made := [DialogPrefs_saveSettings; Settings_setUseAutostart flag;
               file; Settings_save] in
  onAboutToQuit s =
    Done tt (mkSys (app s) (react Settings_save (react file w2))
                   (calls s ++ made))
  /\ forallb (fun c => negb (is_audio_call c)) made = true
  /\ handle aboutToQuit s =
     onAboutToQuit
       (mkSys (app s)
              (react (deleteLater trayIcon_)
                 (react (deleteLater dlgPrefs_)
                    (react (deleteLater dlgAbout_)
                       (react (deleteLater mnuVolume_) (world s)))))
              (calls s ++ [deleteLater mnuVolume_; deleteLater dlgAbout_;
                           deleteLater dlgPrefs_; deleteLater trayIcon_])).
Proof.
  cbv zeta. split; [|split].
  - unfold onAboutToQuit. step_M.
    destruct (useAutostart
                (react (Settings_setUseAutostart
                          (isChecked (react DialogPrefs_saveSettings (world s))))
                       (react DialogPrefs_saveSettings (world s))));
      cbn; now rewrite <- !app_assoc.
  - destruct (useAutostart _); reflexivity.
  - cbn [handle]. step_M. now rewrite <- !app_assoc.
Qed.

(** ** Device change *)

Lemma onAudioDeviceChanged_nothing (s : @Sys World) (deviceId : Z) :
  engine_ (app s) = None
  \/ (exists e, engine_ (app s) = Some e /\ sinks (world s) e = []) ->
  onAudioDeviceChanged deviceId s = Done tt s.
Proof.
  unfold onAudioDeviceChanged. step_M.
  intros [He | (e & He & Hs)]; rewrite He; [reflexivity|].
  rewrite Hs. reflexivity.
Qed.

Lemma onAudioDeviceChanged_out_of_range (s : @Sys World) (e : Engine)
      (deviceId : Z) :
  engine_ (app s) = Some e ->
  sinks (world s) e <> [] ->
  Z.of_nat (List.length (sinks (world s) e)) <= deviceId ->
  onAudioDeviceChanged deviceId s = Crashed IndexOutOfRange.
Proof.
  intros He Hne Hge. unfold onAudioDeviceChanged, at_. step_M. rewrite He.
  destruct (sinks (world s) e) as [|d ds] eqn:Hs; [contradiction|].
  destruct (Z.leb_spec (Z.of_nat (List.length (d :: ds))) 0) as [Hle|_].
  { cbn [List.length] in Hle. lia. }
  destruct (Z.ltb_spec deviceId 0); [lia|].
  destruct (Z.ltb_spec deviceId (Z.of_nat (List.length (d :: ds)))); [lia|].
  now rewrite andb_false_r.
Qed.

(** * Further properties of the handlers *)

(** ** The menu lambdas *)

Lemma on_sigVolumeChanged_selected (s : @Sys World) (ch : Device) (vol : Z) :
  channel_ (app s) = Some ch ->
  on_sigVolumeChanged vol s =
  Done tt (refreshed ch (mkSys (app s) (react (setVolume ch vol) (world s))
                               (calls s ++ [setVolume ch vol]))).
Proof.
  intros Hch. unfold on_sigVolumeChanged.
  unfold bind at 1, getApp. rewrite Hch. unfold bind, call.
  now rewrite (updateTrayIcon_selected _ ch).
Qed.

Lemma on_sigMuteToggled_selected (s : @Sys World) (ch : Device) (muted : bool) :
  channel_ (app s) = Some ch ->
  on_sigMuteToggled muted s =
  Done tt (refreshed ch (mkSys (app s) (react (setMute ch muted) (world s))
                               (calls s ++ [setMute ch muted]))).
Proof.
  intros Hch. unfold on_sigMuteToggled.
  unfold bind at 1, getApp. rewrite Hch. unfold bind, call.
  now rewrite (updateTrayIcon_selected _ ch).
Qed.

Lemma on_sigVolumeChanged_null (s : @Sys World) (vol : Z) :
  channel_ (app s) = None -> on_sigVolumeChanged vol s = Done tt s.
Proof.
  intros Hch. unfold on_sigVolumeChanged, bind, getApp. now rewrite Hch.
Qed.

Lemma on_sigMuteToggled_null (s : @Sys World) (muted : bool) :
  channel_ (app s) = None -> on_sigMuteToggled muted s = Done tt s.
Proof.
  intros Hch. unfold on_sigMuteToggled, bind, getApp. now rewrite Hch.
Qed.

(** X1. A mute state delivered by the popup menu's [sigMuteToggled]: with
    an active channel the controller calls [setMute] with that state on the
    channel and then sets the tray icon from the channel's volume and mute
    as they are after the call; with no channel nothing changes. *)
Theorem menu_mute_event (s : @Sys World) (muted : bool) :
  handle (sigMuteToggled muted) s =
  match channel_ (app s) with
  | Some ch =>
      let w1 := react (setMute ch muted) (world s) in
      let name := iconNameFor (volume w1 ch) (mute w1 ch) in
      Done tt (mkSys (app s) (react (setIcon name) w1)
                     (calls s ++ [setMute ch muted; setIcon name]))
  | None => Done tt s
  end.
Proof.
  cbn [handle]. destruct (channel_ (app s)) as [ch|] eqn:Hch.
  - rewrite (on_sigMuteToggled_selected s ch muted Hch).
    unfold refreshed. cbn [app world calls]. now rewrite calls_two.
  - now apply on_sigMuteToggled_null.
Qed.

(** ** The preferences lambda *)

(** X2. The [sigPrefsChanged] lambda faults in exactly one situation: the
    build has ALSA support and no engine is active, so that the unguarded
    [engine_->setNormalized] dereferences a null pointer. *)
Theorem prefs_changed_faults_iff (s : @Sys World) (f : Fault) :
  handle sigPrefsChanged s = Crashed f
  <-> f = NullPointerDereference /\ USE_ALSA = true /\ engine_ (app s) = None.
Proof.
  cbn [handle]. unfold on_sigPrefsChanged. step_M.
  destruct USE_ALSA.
  - destruct (engine_ (app s)) as [e|]; cbn.
    + split; [|intros (_ & _ & E); discriminate E].
      destruct (channel_ (app s)); [|discriminate].
      destruct (is_AlsaEngine _ e && is_AlsaDevice _ _); discriminate.
    + split; [intros E; now inversion E | intros (-> & _); reflexivity].
  - split; [discriminate | intros (_ & E & _); discriminate E].
Qed.

(** X3. In a build without ALSA support the [sigPrefsChanged] lambda makes
    two calls, [setPageStep] and then [setSingleStep] on the popup menu,
    each with the value the settings hold at that moment, and leaves the
    members alone. *)
Theorem prefs_changed_without_alsa (s : @Sys World) :
  USE_ALSA = false ->
  let p := pageStep (world s) in
  let w1 := react (MenuVolume_setPageStep p) (world s) in
  let q := singleStep w1 in
  handle sigPrefsChanged s =
  Done tt (mkSys (app s) (react (MenuVolume_setSingleStep q) w1)
                 (calls s ++ [MenuVolume_setPageStep p;
                              MenuVolume_setSingleStep q])).
Proof.
  intros Hb. cbn [handle]. unfold on_sigPrefsChanged. step_M.
  rewrite Hb. cbn. now rewrite calls_two.
Qed.

(** X4. In a build with ALSA support and an engine active, the lambda
    first passes the normalisation setting to the engine, then calls
    [updateDevice] exactly when the engine is an ALSA engine and a channel
    is active that is an ALSA device, and last sets the two steps of the
    popup menu; the members are left alone. *)
Theorem prefs_changed_with_alsa (s : @Sys World) (e : Engine) :
  USE_ALSA = true ->
  engine_ (app s) = Some e ->
  let first := setNormalized e (isNormalized (world s)) in
  let w1 := react first (world s) in
  let update :=
    match channel_ (app s) with
    | Some d => if is_AlsaEngine w1 e && is_AlsaDevice w1 d
                then [updateDevice e d] else []
    | None => []
    end in
  let w2 := react_all update w1 in
  let p := pageStep w2 in
  let w3 := react (MenuVolume_setPageStep p) w2 in
  let q := singleStep w3 in
  handle sigPrefsChanged s =
  Done tt (mkSys (app s) (react (MenuVolume_setSingleStep q) w3)
                 (calls s ++ first :: update
                          ++ [MenuVolume_setPageStep p;
                              MenuVolume_setSingleStep q])).
Proof.
  intros Hb He. cbn [handle]. unfold on_sigPrefsChanged. step_M.
  rewrite Hb, He. cbn.
  destruct (channel_ (app s)) as [d|]; cbn.
  - destruct (is_AlsaEngine _ e && is_AlsaDevice _ d); cbn;
      now rewrite <- !app_assoc.
  - now rewrite <- !app_assoc.
Qed.

(** ** Engine change *)

Lemma installed_calls (s : @Sys World) (engineId : Z) :
  (unsupported engineId
   /\ installed engineId s =
      mkSys (mkApp None (channel_ (app s)) (connections (app s)))
            (world s) (calls s))
  \/ exists b, installed engineId s = created b s.
Proof.
  unfold installed, unsupported.
  destruct (USE_ALSA && (engineId =? EngineId_Alsa));
    [right; now exists AlsaEngine|].
  destruct (USE_PULSEAUDIO && (engineId =? EngineId_PulseAudio));
    [right; now exists PulseAudioEngine|].
  left. now split.
Qed.

Lemma onAudioEngineChanged_cases (s : @Sys World) (engineId : Z) :
  onAudioEngineChanged engineId s = Done tt s
  \/ onAudioEngineChanged engineId s = Done tt (installed engineId s)
  \/ exists e, engine_ (app s) = Some e
               /\ onAudioEngineChanged engineId s =
                  Done tt (installed engineId (released e s)).
Proof.
  destruct (engine_ (app s)) as [e|] eqn:He.
  - destruct (Z.eq_dec (id (world s) e) engineId) as [Hid|Hid].
    + left. exact (onAudioEngineChanged_same s e engineId He Hid).
    + right. right. exists e. split; [reflexivity|].
      exact (onAudioEngineChanged_switch s e engineId He Hid).
  - right. left. exact (onAudioEngineChanged_first s engineId He).
Qed.

(** X5. An engine change never faults, whatever the state and the id.  It
    either makes no call at all, or creates one engine and passes it the
    normalisation setting read after the creation; that engine is then the
    active one. *)
Theorem engine_change_never_faults (s : @Sys World) (engineId : Z) :
  exists s',
    handle (sigEngineChanged engineId) s = Done tt s'
    /\ ((calls s' = calls s /\ world s' = world s)
        \/ exists b,
             let e := operator_new (world s) b in
             let w1 := react (new_engine b e) (world s) in
             engine_ (app s') = Some e
             /\ calls s' = calls s ++ [new_engine b e;
                                       setNormalized e (isNormalized w1)]
             /\ world s' = react (setNormalized e (isNormalized w1)) w1).
Proof.
  cbn [handle].
  destruct (onAudioEngineChanged_cases s engineId)
    as [E | [E | (e & He & E)]]; rewrite E; eexists; (split; [reflexivity|]).
  - left. now split.
  - destruct (installed_calls s engineId) as [[_ ->] | [b ->]].
    + left. now split.
    + right. exists b. cbn. now repeat split.
  - destruct (installed_calls (released e s) engineId) as [[_ ->] | [b ->]].
    + left. now split.
    + right. exists b. cbn. now repeat split.
Qed.

(** X6. An engine id that names no compiled-in backend, requested while
    the active engine (if any) has another id: afterwards there is no
    engine, no call was made, the channel is null if an engine had been
    active, and a following device change does nothing. *)
Theorem engine_change_to_unsupported_id (s : @Sys World) (engineId : Z) :
  unsupported engineId ->
  (forall e, engine_ (app s) = Some e -> id (world s) e <> engineId) ->
  exists s',
    handle (sigEngineChanged engineId) s = Done tt s'
    /\ engine_ (app s') = None
    /\ (engine_ (app s) <> None -> channel_ (app s') = None)
    /\ world s' = world s
    /\ calls s' = calls s
    /\ forall deviceId, handle (sigChannelChanged deviceId) s' = Done tt s'.
Proof.
  intros [Ha Hp] Hid. cbn [handle].
  assert (Hinst : forall t : @Sys World,
             installed engineId t =
             mkSys (mkApp None (channel_ (app t)) (connections (app t)))
                   (world t) (calls t)).
  { intros t. unfold installed. now rewrite Ha, Hp. }
  destruct (engine_ (app s)) as [e|] eqn:He.
  - rewrite (onAudioEngineChanged_switch s e engineId He (Hid e eq_refl)).
    rewrite Hinst. eexists. split; [reflexivity|].
    cbn [app world calls engine_ channel_].
    repeat (split; [reflexivity|]).
    intros deviceId. apply onAudioDeviceChanged_nothing. now left.
  - rewrite (onAudioEngineChanged_first s engineId He), Hinst.
    eexists. split; [reflexivity|].
    cbn [app world calls engine_ channel_].
    split; [reflexivity|]. split; [congruence|].
    repeat (split; [reflexivity|]).
    intros deviceId. apply onAudioDeviceChanged_nothing. now left.
Qed.

(** ** Device change *)

(** X7. A device change with an engine active and a sink at the index (a
    negative id counting as 0): that sink becomes the channel, its
    [muteChanged] and [volumeChanged] are connected after the connections
    already there, and no call is made; the sink is one the engine lists. *)
Theorem device_change_selects_sink (s : @Sys World) (e : Engine)
        (deviceId : Z) (ch : Device) :
  engine_ (app s) = Some e ->
  nth_error (sinks (world s) e) (Z.to_nat (Z.max 0 deviceId)) = Some ch ->
  handle (sigChannelChanged deviceId) s =
    Done tt (mkSys (mkApp (Some e) (Some ch)
                          (connections (app s) ++ [mute_conn ch; volume_conn ch]))
                   (world s) (calls s))
  /\ In ch (sinks (world s) e).
Proof.
  intros He Hnth. split.
  - exact (onAudioDeviceChanged_selects s e deviceId ch He Hnth).
  - exact (nth_error_In _ _ Hnth).
Qed.

(** X8. A negative device id is treated exactly like 0. *)
Theorem device_change_negative_id (s : @Sys World) (deviceId : Z) :
  deviceId < 0 ->
  handle (sigChannelChanged deviceId) s = handle (sigChannelChanged 0) s.
Proof.
  intros Hneg. cbn [handle]. unfold onAudioDeviceChanged.
  apply Z.ltb_lt in Hneg. rewrite Hneg. reflexivity.
Qed.

(** X9. A device change faults in exactly one situation: an engine is
    active, it lists at least one sink, and the id is not below the number
    of sinks; the fault is the out-of-range read of the sink list. *)
Theorem device_change_faults_iff (s : @Sys World) (deviceId : Z) (f : Fault) :
  handle (sigChannelChanged deviceId) s = Crashed f
  <-> f = IndexOutOfRange
      /\ exists e, engine_ (app s) = Some e
                   /\ sinks (world s) e <> []
                   /\ Z.of_nat (List.length (sinks (world s) e)) <= deviceId.
Proof.
  cbn [handle]. split.
  - unfold onAudioDeviceChanged, at_. step_M.
    destruct (engine_ (app s)) as [e|] eqn:He; [|discriminate].
    destruct (Z.leb_spec (Z.of_nat (List.length (sinks (world s) e))) 0)
      as [Hle|Hgt]; [discriminate|].
    assert (Hne : sinks (world s) e <> []).
    { intros E. rewrite E in Hgt. cbn in Hgt. lia. }
    destruct (Z.ltb_spec deviceId 0) as [Hneg|Hpos].
    + destruct (Z.ltb_spec 0 (Z.of_nat (List.length (sinks (world s) e))));
        [|lia].
      cbn. destruct (sinks (world s) e); [contradiction|]. discriminate.
    + destruct (Z.leb_spec 0 deviceId); [|lia].
      destruct (Z.ltb_spec deviceId (Z.of_nat (List.length (sinks (world s) e))))
        as [Hlt|Hge]; cbn.
      * destruct (nth_error (sinks (world s) e) (Z.to_nat deviceId)) eqn:Hn;
          [discriminate|].
        apply nth_error_None in Hn. lia.
      * intros E. inversion E. split; [reflexivity|]. now exists e.
  - intros (-> & e & He & Hne & Hge).
    exact (onAudioDeviceChanged_out_of_range s e deviceId He Hne Hge).
Qed.

(** X10. With no engine active, or with an engine that lists no sink, a
    device change does nothing, whatever the id. *)
Theorem device_change_without_sinks (s : @Sys World) (deviceId : Z) :
  engine_ (app s) = None
  \/ (exists e, engine_ (app s) = Some e /\ sinks (world s) e = []) ->
  handle (sigChannelChanged deviceId) s = Done tt s.
Proof. exact (onAudioDeviceChanged_nothing s deviceId). Qed.

Lemma listens_mute_conn (d ch : Device) (sig : Signal) :
  listens (SDevice d) sig (mute_conn ch)
  = Nat.eqb ch d && Signal_eqb muteChanged sig.
Proof. reflexivity. Qed.

Lemma listens_volume_conn (d ch : Device) (sig : Signal) :
  listens (SDevice d) sig (volume_conn ch)
  = Nat.eqb ch d && Signal_eqb volumeChanged sig.
Proof. reflexivity. Qed.

(** X11. A device change never disconnects anything: after a sink was
    selected every earlier connection is still there, the selected sink
    has one listener more for each of its two signals, and every other
    device has as many listeners as before. *)
Theorem device_change_adds_listeners (s : @Sys World) (e : Engine)
        (deviceId : Z) (ch : Device) :
  engine_ (app s) = Some e ->
  nth_error (sinks (world s) e) (Z.to_nat (Z.max 0 deviceId)) = Some ch ->
  exists s',
    handle (sigChannelChanged deviceId) s = Done tt s'
    /\ (forall c, In c (connections (app s)) -> In c (connections (app s')))
    /\ (forall d,
          listeners d volumeChanged (app s')
          = (listeners d volumeChanged (app s) + if Nat.eqb ch d then 1 else 0)%nat
          /\ listeners d muteChanged (app s')
             = (listeners d muteChanged (app s) + if Nat.eqb ch d then 1 else 0)%nat).
Proof.
  intros He Hnth. eexists. split.
  { exact (onAudioDeviceChanged_selects s e deviceId ch He Hnth). }
  cbn [app connections]. split.
  { intros c Hin. apply in_or_app. now left. }
  intros d. unfold listeners. cbn [connections].
  rewrite !filter_app, !length_app. cbn [filter].
  rewrite !listens_mute_conn, !listens_volume_conn. cbn [Signal_eqb].
  rewrite !andb_false_r, !andb_true_r.
  destruct (Nat.eqb ch d); split; reflexivity.
Qed.

(** ** Invariant and frame *)

Lemma listeners_of_In (a : App) (d : Device) :
  (In (volume_conn d) (connections a) -> (1 <= listeners d volumeChanged a)%nat)
  /\ (In (mute_conn d) (connections a) -> (1 <= listeners d muteChanged a)%nat).
Proof.
  unfold listeners. split; intros Hin.
  - assert (Hl : In (volume_conn d)
                    (filter (listens (SDevice d) volumeChanged) (connections a))).
    { apply filter_In. split; [exact Hin|].
      rewrite listens_volume_conn. now rewrite Nat.eqb_refl. }
    destruct (filter _ _); [destruct Hl | cbn; lia].
  - assert (Hl : In (mute_conn d)
                    (filter (listens (SDevice d) muteChanged) (connections a))).
    { apply filter_In. split; [exact Hin|].
      rewrite listens_mute_conn. now rewrite Nat.eqb_refl. }
    destruct (filter _ _); [destruct Hl | cbn; lia].
Qed.

(** X12. In every state the controller can reach: the engines connected
    to [onAudioDeviceListChanged] are the active engine, once, and nothing
    when no engine is active; a channel is active only while an engine is,
    and then both of its signals have at least one listener. *)
Theorem reachable_states_are_wired (a : App) :
  reachable a ->
  filter from_engine (connections a)
  = match engine_ a with
    | Some e => [mkConnection (SEngine e) sinkListChanged
                              slot_onAudioDeviceListChanged]
    | None => []
    end
  /\ forall ch, channel_ a = Some ch ->
       (exists e, engine_ a = Some e)
       /\ (1 <= listeners ch muteChanged a)%nat
       /\ (1 <= listeners ch volumeChanged a)%nat.
Proof.
  intros Hr. destruct (reachable_wired a Hr) as [_ He Hc].
  split; [exact He|].
  intros ch Hch. destruct (Hc ch Hch) as (Hne & Hm & Hv).
  split; [destruct (engine_ a) as [e|]; [now exists e | contradiction]|].
  split; [now apply listeners_of_In | now apply listeners_of_In].
Qed.

Lemma keeps_handle (ev : Event) :
  assigns_members ev = false -> keeps_app (handle ev).
Proof.
  destruct ev; cbn [assigns_members handle]; try discriminate; intros _.
  - apply keeps_on_sigPrefsChanged.
  - apply keeps_on_sigMuteToggled.
  - apply keeps_on_sigVolumeChanged.
  - apply keeps_onTrayIconActivated.
  - pose proof keeps_onAboutToQuit. keeps.
  - apply keeps_deliver.
Qed.

(** X13. Only [sigEngineChanged] and [sigChannelChanged] assign the
    members: every other event, when its handler returns, leaves
    [engine_], [channel_] and the connections as they were. *)
Theorem other_events_keep_members (ev : Event) (s s' : @Sys World) :
  assigns_members ev = false ->
  handle ev s = Done tt s' ->
  app s' = app s.
Proof. intros Hev E. exact (keeps_handle ev Hev s tt s' E). Qed.

(** ** Start-up *)

Lemma installed_backend (s : @Sys World) (engineId : Z) :
  installed engineId s =
  match backend_for engineId with
  | Some b => created b s
  | None => mkSys (mkApp None (channel_ (app s)) (connections (app s)))
                  (world s) (calls s)
  end.
Proof.
  unfold installed, backend_for.
  destruct (USE_ALSA && (engineId =? EngineId_Alsa)); [reflexivity|].
  destruct (USE_PULSEAUDIO && (engineId =? EngineId_PulseAudio)); reflexivity.
Qed.

Lemma initUi_from_loaded (w : World) :
  Application_ctor (startup w) =
  bind (onAudioEngineChanged (engineId (world (loaded w))))
       (fun _ =>
          bind getWorld (fun w1 =>
          bind (onAudioDeviceChanged (channelId w1)) (fun _ =>
          bind onAudioDeviceListChanged (fun _ =>
          bind updateTrayIcon (fun _ =>
          bind getApp (fun a =>
          bind (match channel_ a with
                | Some ch =>
                    bind getWorld (fun w2 =>
                      call (MenuVolume_setVolume (volume w2 ch)))
                | None => ret tt
                end) (fun _ =>
          bind getWorld (fun w3 => call (setChecked (useAutostart w3))))))))))
       (loaded w).
Proof. reflexivity. Qed.

Lemma initUi_tail (s5 : @Sys World) :
  bind onAudioDeviceListChanged (fun _ =>
  bind updateTrayIcon (fun _ =>
  bind getApp (fun a =>
  bind (match channel_ a with
        | Some ch =>
            bind getWorld (fun w2 =>
              call (MenuVolume_setVolume (volume w2 ch)))
        | None => ret tt
        end) (fun _ =>
  bind getWorld (fun w3 => call (setChecked (useAutostart w3))))))) s5
  = match channel_ (app s5) with
    | None => Crashed NullPointerDereference
    | Some ch =>
        match onAudioDeviceListChanged s5 with
        | Done _ s6 =>
            let s7 := refreshed ch s6 in
            let v := volume (world s7) ch in
            let w8 := react (MenuVolume_setVolume v) (world s7) in
            Done tt (mkSys (app s5)
                           (react (setChecked (useAutostart w8)) w8)
                           (calls s7 ++ [MenuVolume_setVolume v;
                                         setChecked (useAutostart w8)]))
        | Crashed f => Crashed f
        end
    end.
Proof.
  unfold bind at 1.
  destruct (onAudioDeviceListChanged s5) as [[] s6|f] eqn:E6.
  2:{ rewrite onAudioDeviceListChanged_Done in E6.
      destruct (engine_ (app s5)); discriminate E6. }
  assert (Happ : app s6 = app s5)
    by exact (keeps_onAudioDeviceListChanged _ _ _ E6).
  unfold bind at 1.
  destruct (channel_ (app s5)) as [ch|] eqn:Hch.
  - rewrite (updateTrayIcon_selected s6 ch) by now rewrite Happ.
    unfold bind, getApp, getWorld, call. cbn [app refreshed].
    rewrite Happ, Hch. cbn [app world calls].
    change (app (refreshed ch s6)) with (app s6).
    now rewrite calls_two, Happ.
  - rewrite updateTrayIcon_null by now rewrite Happ. reflexivity.
Qed.


(** X15. When the stored engine id names no compiled-in backend, the
    constructor ends in a null-pointer dereference: no engine is created,
    the device change does nothing, and [updateTrayIcon] finds [channel_]
    null. *)
Theorem startup_with_unsupported_engine (w : World) :
  backend_for (engineId (world (loaded w))) = None ->
  Application_ctor (startup w) = Crashed NullPointerDereference.
Proof.
  intros Hb. rewrite initUi_from_loaded.
  unfold bind at 1.
  rewrite (onAudioEngineChanged_first (loaded w)) by reflexivity.
  rewrite installed_backend, Hb.
  unfold bind at 1, getWorld. unfold bind at 1.
  rewrite onAudioDeviceChanged_nothing by (now left).
  now rewrite initUi_tail.
Qed.

(** X16. When the engine created at start-up lists no sink, the
    constructor ends in a null-pointer dereference as well. *)
Theorem startup_without_sinks (w : World) (b : Backend) :
  backend_for (engineId (world (loaded w))) = Some b ->
  sinks (world (created b (loaded w)))
        (operator_new (world (loaded w)) b) = [] ->
  Application_ctor (startup w) = Crashed NullPointerDereference.
Proof.
  intros Hb Hs. rewrite initUi_from_loaded.
  unfold bind at 1.
  rewrite (onAudioEngineChanged_first (loaded w)) by reflexivity.
  rewrite installed_backend, Hb.
  unfold bind at 1, getWorld. unfold bind at 1.
  rewrite onAudioDeviceChanged_nothing.
  - now rewrite initUi_tail.
  - right. eexists. split; [reflexivity|]. exact Hs.
Qed.

(** ** Signals of devices that are not the channel *)

Lemma wired_listener_slots (a : App) (d : Device) :
  wired a ->
  Forall (fun c => conn_slot c = lambda_volumeChanged)
         (filter (listens (SDevice d) volumeChanged) (connections a))
  /\ Forall (fun c => conn_slot c = lambda_muteChanged)
            (filter (listens (SDevice d) muteChanged) (connections a)).
Proof.
  intros [Hk _ _]. rewrite Forall_forall in Hk.
  split; apply Forall_forall; intros c Hin;
    apply filter_In in Hin as [Hin Hl];
    destruct (Hk c Hin) as [[e ->] | [[d' ->] | [d' ->]]];
    try reflexivity; try discriminate Hl;
    unfold listens in Hl; cbn in Hl;
    rewrite andb_false_r in Hl; discriminate Hl.
Qed.

Lemma deliver_volume (a : App) (ch d : Device) (w : World) (l : list Call)
      (vol : Z) :
  wired a -> channel_ a = Some ch ->
  deliver (SDevice d) (emit_volumeChanged vol) (mkSys a w l) =
  Done tt (Nat.iter (listeners d volumeChanged a) (volume_shown ch vol)
                    (mkSys a w l)).
Proof.
  intros Hw Hch. unfold deliver. unfold bind at 1, getApp. cbn [app signal_of].
  apply (run_slots_same lambda_volumeChanged (emit_volumeChanged vol)
           (volume_shown ch vol) (fun s => channel_ (app s) = Some ch)).
  - intros s' Hs'. split; [now apply run_volume_lambda | exact Hs'].
  - now apply wired_listener_slots.
  - exact Hch.
Qed.

Lemma deliver_mute (a : App) (ch d : Device) (w : World) (l : list Call)
      (muted : bool) :
  wired a -> channel_ a = Some ch ->
  deliver (SDevice d) (emit_muteChanged muted) (mkSys a w l) =
  Done tt (Nat.iter (listeners d muteChanged a) (mute_shown ch muted)
                    (mkSys a w l)).
Proof.
  intros Hw Hch. unfold deliver. unfold bind at 1, getApp. cbn [app signal_of].
  apply (run_slots_same lambda_muteChanged (emit_muteChanged muted)
           (mute_shown ch muted) (fun s => channel_ (app s) = Some ch)).
  - intros s' Hs'. split; [now apply run_mute_lambda | exact Hs'].
  - now apply wired_listener_slots.
  - exact Hch.
Qed.

(** X17. While a channel is active, a [volumeChanged] or [muteChanged]
    from any device [d], the channel or not, is handled without fault:
    once per listener connected to that signal of [d], the emitted value is
    passed to the popup menu and the tray icon is set from the volume and
    mute of the active channel. *)
Theorem device_events_are_shown_for_the_channel (a : App) (ch d : Device)
        (w : World) (l : list Call) :
  reachable a ->
  channel_ a = Some ch ->
  let s := mkSys a w l in
  (forall vol,
      handle (emitted (SDevice d) (emit_volumeChanged vol)) s =
      Done tt (Nat.iter (listeners d volumeChanged a) (volume_shown ch vol) s))
  /\ (forall muted,
      handle (emitted (SDevice d) (emit_muteChanged muted)) s =
      Done tt (Nat.iter (listeners d muteChanged a) (mute_shown ch muted) s)).
Proof.
  intros Hr Hch s. apply reachable_wired in Hr. cbn [handle]. split.
  - intros vol. now apply deliver_volume.
  - intros muted. now apply deliver_mute.
Qed.

(** X18. Selecting another sink does not silence the former channel: in
    the state after the device change the former channel still has a
    listener on [volumeChanged], and each of its volume changes is passed
    to the popup menu, the icon being set from the newly selected sink. *)
Theorem former_channel_is_still_heard (s : @Sys World) (e : Engine)
        (deviceId : Z) (old new : Device) (w : World) (l : list Call) (vol : Z) :
  reachable (app s) ->
  channel_ (app s) = Some old ->
  engine_ (app s) = Some e ->
  nth_error (sinks (world s) e) (Z.to_nat (Z.max 0 deviceId)) = Some new ->
  exists s',
    handle (sigChannelChanged deviceId) s = Done tt s'
    /\ channel_ (app s') = Some new
    /\ (1 <= listeners old volumeChanged (app s'))%nat
    /\ handle (emitted (SDevice old) (emit_volumeChanged vol))
              (mkSys (app s') w l) =
       Done tt (Nat.iter (listeners old volumeChanged (app s'))
                         (volume_shown new vol) (mkSys (app s') w l)).
Proof.
  intros Hr Hold He Hnth.
  pose proof (onAudioDeviceChanged_selects s e deviceId new He Hnth) as E.
  eexists. split; [exact E|].
  assert (Hw : wired (app s)) by now apply reachable_wired.
  pose proof (wired_onAudioDeviceChanged deviceId _ _ _ E Hw) as Hw'.
  cbn [app] in Hw' |- *.
  split; [reflexivity|]. split.
  - apply listeners_of_In. cbn [connections]. apply in_or_app. left.
    destruct Hw as [_ _ Hc]. now destruct (Hc old Hold) as (_ & _ & Hin).
  - cbn [handle]. now apply deliver_volume.
Qed.

Lemma run_slot_outcome (slot : Slot) (em : Emission) (s : @Sys World) :
  (exists s', run_slot slot em s = Done tt s' /\ app s' = app s)
  \/ run_slot slot em s = Crashed NullPointerDereference.
Proof.
  destruct (channel_ (app s)) as [ch|] eqn:Hch.
  - left. destruct slot, em as [muted|vol|];
      try (eexists; split; reflexivity).
    + rewrite (run_mute_lambda s ch muted Hch). now eexists.
    + rewrite (run_volume_lambda s ch vol Hch). now eexists.
    + cbn [run_slot]. rewrite onAudioDeviceListChanged_Done.
      destruct (engine_ (app s)); now eexists.
  - destruct slot, em as [muted|vol|];
      try (left; eexists; split; reflexivity).
    + right. cbn [run_slot]. unfold bind, call.
      now rewrite updateTrayIcon_null.
    + right. cbn [run_slot]. unfold bind, call.
      now rewrite updateTrayIcon_null.
    + left. cbn [run_slot]. rewrite onAudioDeviceListChanged_Done.
      destruct (engine_ (app s)); now eexists.
Qed.

Lemma run_slots_null (l : list Connection) (c : Connection) (vol : Z) :
  In c l -> conn_slot c = lambda_volumeChanged ->
  forall s : @Sys World,
    channel_ (app s) = None ->
    run_slots l (emit_volumeChanged vol) s = Crashed NullPointerDereference.
Proof.
  intros Hin Hc. induction l as [|c0 rest IH]; [destruct Hin|].
  intros s Hch. cbn [run_slots]. unfold bind at 1.
  destruct Hin as [-> | Hin].
  - rewrite Hc. cbn [run_slot]. unfold bind, call.
    now rewrite updateTrayIcon_null.
  - destruct (run_slot_outcome (conn_slot c0) (emit_volumeChanged vol) s)
      as [(s' & -> & Happ) | ->]; [|reflexivity].
    apply (IH Hin). now rewrite Happ.
Qed.

(** X19. With no channel active, a [volumeChanged] from a device that
    still has its lambda connected ends in a null-pointer dereference:
    the lambda calls [updateTrayIcon], which does not test [channel_]. *)
Theorem stale_listener_faults (s : @Sys World) (d : Device) (vol : Z) :
  channel_ (app s) = None ->
  In (volume_conn d) (connections (app s)) ->
  handle (emitted (SDevice d) (emit_volumeChanged vol)) s
  = Crashed NullPointerDereference.
Proof.
  intros Hch Hin. cbn [handle]. unfold deliver.
  unfold bind at 1, getApp. cbn [signal_of].
  apply (run_slots_null _ (volume_conn d)); [|reflexivity|exact Hch].
  apply filter_In. split; [exact Hin|].
  rewrite listens_volume_conn. now rewrite Nat.eqb_refl.
Qed.

(** ** Events that cannot fault *)






(** ** What the controller calls *)

Lemma adds_ret {A : Type} (P : Call -> Prop) (x : A) :
  @adds_only World A P (ret x).
Proof.
  intros s a s' E. injection E as _ <-. exists [].
  split; [now rewrite app_nil_r | constructor].
Qed.

Lemma adds_fail {A : Type} (P : Call -> Prop) (f : Fault) :
  @adds_only World A P (fail f).
Proof. intros s a s' E. discriminate E. Qed.

Lemma adds_getApp (P : Call -> Prop) : @adds_only World App P getApp.
Proof.
  intros s a s' E. injection E as _ <-. exists [].
  split; [now rewrite app_nil_r | constructor].
Qed.

Lemma adds_getWorld (P : Call -> Prop) : @adds_only World World P getWorld.
Proof.
  intros s a s' E. injection E as _ <-. exists [].
  split; [now rewrite app_nil_r | constructor].
Qed.

Lemma adds_putApp (P : Call -> Prop) (a : App) :
  @adds_only World unit P (putApp a).
Proof.
  intros s x s' E. inversion E. exists []. cbn.
  split; [now rewrite app_nil_r | constructor].
Qed.

Lemma adds_deref {A : Type} (P : Call -> Prop) (p : option A) :
  @adds_only World A P (deref p).
Proof. destruct p; [apply adds_ret | apply adds_fail]. Qed.

Lemma adds_call (P : Call -> Prop) (c : Call) :
  P c -> adds_only P (call c).
Proof.
  intros HP s x s' E. inversion E. exists [c]. cbn.
  split; [reflexivity | now constructor].
Qed.

Lemma adds_bind {A B : Type} (P : Call -> Prop)
      (c : @M World A) (k : A -> @M World B) :
  adds_only P c -> (forall a, adds_only P (k a)) -> adds_only P (bind c k).
Proof.
  intros Hc Hk s b s' E.
  apply bind_Done in E as (a & s1 & E1 & E2).
  destruct (Hc _ _ _ E1) as (l1 & El1 & H1).
  destruct (Hk a _ _ _ E2) as (l2 & El2 & H2).
  exists (l1 ++ l2). split.
  - rewrite El2, El1. now rewrite app_assoc.
  - apply Forall_app. now split.
Qed.

Ltac adds :=
  repeat first
    [ apply adds_ret | apply adds_getApp | apply adds_getWorld
    | apply adds_putApp | apply adds_fail | apply adds_deref
    | assumption
    | apply adds_bind; [| intros ?]
    | apply adds_call
    | match goal with
      | |- adds_only _ (match ?x with _ => _ end) => destruct x
      end ].

Ltac quiet_call :=
  match goal with
  | |- quiet _ =>
      let E := fresh "E" in
      split; [reflexivity | intros ? E; discriminate E]
  end.

Lemma quiet_updateTrayIcon : adds_only quiet updateTrayIcon.
Proof.
  unfold updateTrayIcon. adds.
  split; [reflexivity|]. intros name E. injection E as <-.
  unfold icon_names.
  destruct (_ || _); [cbn; tauto|].
  destruct (_ <=? 33); [cbn; tauto|].
  destruct (_ <=? 66); cbn; tauto.
Qed.

Lemma quiet_onAudioDeviceListChanged : adds_only quiet onAudioDeviceListChanged.
Proof. unfold onAudioDeviceListChanged. adds. quiet_call. Qed.

Lemma quiet_onAudioEngineChanged engineId :
  adds_only quiet (onAudioEngineChanged engineId).
Proof.
  unfold onAudioEngineChanged, release_engine, install_engine,
    set_engine_, set_channel_, connect, disconnect, disconnect_all.
  cbv zeta. adds; quiet_call.
Qed.

Lemma quiet_onAudioDeviceChanged deviceId :
  adds_only quiet (onAudioDeviceChanged deviceId).
Proof.
  unfold onAudioDeviceChanged, at_, set_channel_, connect.
  cbv zeta. adds.
Qed.

Lemma quiet_on_sigPrefsChanged : adds_only quiet on_sigPrefsChanged.
Proof. unfold on_sigPrefsChanged. adds; quiet_call. Qed.

Lemma quiet_onAboutToQuit : adds_only quiet onAboutToQuit.
Proof. unfold onAboutToQuit. adds; quiet_call. Qed.

Lemma quiet_run_slot slot em : adds_only quiet (run_slot slot em).
Proof.
  unfold run_slot.
  pose proof quiet_updateTrayIcon. pose proof quiet_onAudioDeviceListChanged.
  adds; quiet_call.
Qed.

Lemma quiet_deliver sender em : adds_only quiet (deliver sender em).
Proof.
  unfold deliver. apply adds_bind; [apply adds_getApp|]. intros a.
  induction (filter (listens sender (signal_of em)) (connections a))
    as [|c rest IH]; cbn [run_slots].
  - apply adds_ret.
  - apply adds_bind; [apply quiet_run_slot | intros _; exact IH].
Qed.

Lemma quiet_allowed (och : option Device) (c : Call) :
  quiet c -> allowed och c.
Proof.
  intros [Hc Hi]. split; [|exact Hi].
  intros d Hd. rewrite Hc in Hd. discriminate Hd.
Qed.

Lemma adds_quiet_allowed {A : Type} (c : @M World A) (s s' : @Sys World) (a : A) :
  adds_only quiet c -> c s = Done a s' ->
  exists added, calls s' = calls s ++ added
                /\ Forall (allowed (channel_ (app s))) added.
Proof.
  intros Hc E. destruct (Hc _ _ _ E) as (added & Hcalls & Hq).
  exists added. split; [exact Hcalls|].
  eapply Forall_impl; [|exact Hq]. intros c0. apply quiet_allowed.
Qed.

Lemma iconNameFor_known (v : Z) (m : bool) : In (iconNameFor v m) icon_names.
Proof.
  unfold iconNameFor, icon_names.
  destruct (_ || _); [cbn; tauto|].
  destruct (_ <=? 33); [cbn; tauto|].
  destruct (_ <=? 66); cbn; tauto.
Qed.

Lemma handle_allowed (ev : Event) (s s' : @Sys World) :
  handle ev s = Done tt s' ->
  exists added, calls s' = calls s ++ added
                /\ Forall (allowed (channel_ (app s))) added.
Proof.
  destruct ev; cbn [handle]; intros E.
  - exact (adds_quiet_allowed _ _ _ _ (quiet_onAudioEngineChanged _) E).
  - exact (adds_quiet_allowed _ _ _ _ (quiet_onAudioDeviceChanged _) E).
  - exact (adds_quiet_allowed _ _ _ _ quiet_on_sigPrefsChanged E).
  - destruct (channel_ (app s)) as [ch|] eqn:Hch.
    + rewrite (on_sigMuteToggled_selected s ch muted Hch) in E.
      injection E as <-. eexists. split.
      * unfold refreshed. cbn [calls]. rewrite calls_two. reflexivity.
      * constructor.
        { split; [intros d Hd; now injection Hd as <-
                 | intros n En; discriminate En]. }
        constructor; [|constructor].
        split; [intros d Hd; discriminate Hd|].
        intros n En. injection En as <-. apply iconNameFor_known.
    + rewrite (on_sigMuteToggled_null s muted Hch) in E. injection E as <-.
      exists []. split; [now rewrite app_nil_r | constructor].
  - destruct (channel_ (app s)) as [ch|] eqn:Hch.
    + rewrite (on_sigVolumeChanged_selected s ch vol Hch) in E.
      injection E as <-. eexists. split.
      * unfold refreshed. cbn [calls]. rewrite calls_two. reflexivity.
      * constructor.
        { split; [intros d Hd; now injection Hd as <-
                 | intros n En; discriminate En]. }
        constructor; [|constructor].
        split; [intros d Hd; discriminate Hd|].
        intros n En. injection En as <-. apply iconNameFor_known.
    + rewrite (on_sigVolumeChanged_null s vol Hch) in E. injection E as <-.
      exists []. split; [now rewrite app_nil_r | constructor].
  - unfold onTrayIconActivated in E. destruct reason; step_M.
    1, 2: destruct (channel_ (app s));
      [destruct (muteOnMiddleClick (world s))|];
      injection E as <-; exists [];
      (split; [now rewrite app_nil_r | constructor]).
    1, 2: injection E as <-; rewrite calls_three; eexists;
      (split; [reflexivity|]);
      repeat (constructor; [split; intros ? E0; discriminate E0|]);
      constructor.
    destruct (channel_ (app s)) as [ch|] eqn:Hch;
      [|injection E as <-; exists [];
        split; [now rewrite app_nil_r | constructor]].
    destruct (muteOnMiddleClick (world s));
      [|injection E as <-; exists [];
        split; [now rewrite app_nil_r | constructor]].
    injection E as <-. eexists. split; [reflexivity|].
    constructor; [|constructor].
    split; [|intros n En; discriminate En].
    intros d Hd. now injection Hd as <-.
  - assert (Hq : adds_only quiet (handle (World := World) aboutToQuit)).
    { cbn [handle]. pose proof quiet_onAboutToQuit. adds; quiet_call. }
    exact (adds_quiet_allowed _ _ _ _ Hq E).
  - exact (adds_quiet_allowed _ _ _ _ (quiet_deliver _ _) E).
Qed.

(** X21. No event makes the controller control a device that is not the
    active channel: every [setVolume], [setMute] and [toggleMute] among the
    calls a handler adds is addressed to the channel that was active when
    the event arrived. *)
Theorem only_the_channel_is_controlled (ev : Event) (s s' : @Sys World) :
  handle ev s = Done tt s' ->
  exists added,
    calls s' = calls s ++ added
    /\ forall c d, In c added -> controlled c = Some d ->
                   channel_ (app s) = Some d.
Proof.
  intros E. destruct (handle_allowed ev s s' E) as (added & Hc & Ha).
  exists added. split; [exact Hc|].
  intros c d Hin Hd. rewrite Forall_forall in Ha.
  now apply (Ha c Hin).
Qed.

(** X22. Whatever the event, the tray icon is only ever set to one of the
    four names audio-volume-muted, -low, -medium and -high. *)
Theorem only_the_four_icons_are_set (ev : Event) (s s' : @Sys World) :
  handle ev s = Done tt s' ->
  exists added,
    calls s' = calls s ++ added
    /\ forall name, In (setIcon name) added -> In name icon_names.
Proof.
  intros E. destruct (handle_allowed ev s s' E) as (added & Hc & Ha).
  exists added. split; [exact Hc|].
  intros name Hin. rewrite Forall_forall in Ha.
  now apply (Ha _ Hin).
Qed.

(** ** How the handlers compose *)

(** X23. After a switch to another engine id the menu is without effect
    until a device is selected: volume and mute events from the popup menu
    and a middle click on the tray icon are handled without any call. *)
Theorem menu_is_dead_after_engine_switch (s : @Sys World) (e : Engine)
        (engineId : Z) :
  engine_ (app s) = Some e ->
  id (world s) e <> engineId ->
  exists s1,
    handle (sigEngineChanged engineId) s = Done tt s1
    /\ forall (w : World) (l : list Call),
         let s2 := mkSys (app s1) w l in
         (forall vol, handle (sigVolumeChanged vol) s2 = Done tt s2)
         /\ (forall muted, handle (sigMuteToggled muted) s2 = Done tt s2)
         /\ handle (activated MiddleClick) s2 = Done tt s2.
Proof.
  intros He Hid. eexists. split.
  { exact (onAudioEngineChanged_switch s e engineId He Hid). }
  intros w l s2.
  assert (Hch : channel_ (app s2) = None).
  { unfold s2. cbn [app]. now rewrite installed_channel. }
  cbn [handle]. split; [|split].
  - intros vol. now apply on_sigVolumeChanged_null.
  - intros muted. now apply on_sigMuteToggled_null.
  - unfold onTrayIconActivated. step_M. now rewrite Hch.
Qed.

(** X24. Selecting the sink that is already the channel connects its
    lambdas once more: afterwards it has at least two listeners per signal,
    and each of its volume changes is passed to the popup menu, and the
    icon set, that many times. *)
Theorem reselecting_the_channel_doubles_listeners (s : @Sys World) (e : Engine)
        (deviceId : Z) (ch : Device) (w : World) (l : list Call) (vol : Z) :
  reachable (app s) ->
  channel_ (app s) = Some ch ->
  engine_ (app s) = Some e ->
  nth_error (sinks (world s) e) (Z.to_nat (Z.max 0 deviceId)) = Some ch ->
  exists s',
    handle (sigChannelChanged deviceId) s = Done tt s'
    /\ (2 <= listeners ch volumeChanged (app s'))%nat
    /\ (2 <= listeners ch muteChanged (app s'))%nat
    /\ handle (emitted (SDevice ch) (emit_volumeChanged vol))
              (mkSys (app s') w l) =
       Done tt (Nat.iter (listeners ch volumeChanged (app s'))
                         (volume_shown ch vol) (mkSys (app s') w l)).
Proof.
  intros Hr Hch He Hnth.
  pose proof (onAudioDeviceChanged_selects s e deviceId ch He Hnth) as E.
  assert (Hw : wired (app s)) by now apply reachable_wired.
  pose proof (wired_onAudioDeviceChanged deviceId _ _ _ E Hw) as Hw'.
  destruct Hw as [_ _ Hc]. destruct (Hc ch Hch) as (_ & Hm & Hv).
  apply listeners_of_In in Hv. apply listeners_of_In in Hm.
  eexists. split; [exact E|]. cbn [app] in Hw' |- *.
  assert (Hcount : forall sig,
            (sig = volumeChanged \/ sig = muteChanged) ->
            listeners ch sig
              (mkApp (Some e) (Some ch)
                     (connections (app s) ++ [mute_conn ch; volume_conn ch]))
            = S (listeners ch sig (app s))).
  { intros sig Hsig. unfold listeners. cbn [connections].
    rewrite filter_app, length_app. cbn [filter].
    rewrite listens_mute_conn, listens_volume_conn, Nat.eqb_refl.
    destruct Hsig as [-> | ->]; cbn; lia. }
  split; [rewrite Hcount by (now left); lia|].
  split; [rewrite Hcount by (now right); lia|].
  cbn [handle]. now apply deliver_volume.
Qed.


(** X26. Start-up with a compiled-in backend whose engine lists sinks, but
    fewer than the stored channel id asks for: the constructor ends in the
    out-of-range read of the sink list. *)
Theorem startup_with_stale_channel_id (w : World) (b : Backend) :
  let e := operator_new (world (loaded w)) b in
  let s4 := created b (loaded w) in
  backend_for (engineId (world (loaded w))) = Some b ->
  sinks (world s4) e <> [] ->
  Z.of_nat (List.length (sinks (world s4) e)) <= channelId (world s4) ->
  Application_ctor (startup w) = Crashed IndexOutOfRange.
Proof.
  intros e s4 Hb Hne Hge. rewrite initUi_from_loaded.
  unfold bind at 1.
  rewrite (onAudioEngineChanged_first (loaded w)) by reflexivity.
  rewrite installed_backend, Hb. fold s4.
  unfold bind at 1, getWorld. unfold bind at 1.
  now rewrite (onAudioDeviceChanged_out_of_range s4 e _ eq_refl Hne Hge).
Qed.

End Properties.

(** * Runs on the simulated desktop *)

Lemma booted_is_ctor : Application_ctor (startup desk) = Done tt booted.
Proof. vm_compute. reflexivity. Qed.

(** C9. With two sinks listed, a device id of 2 makes
    [onAudioDeviceChanged] read the sink list past its end: no sink becomes
    the channel.  The constructor runs into the same read when the stored
    channel id is 2. *)
Theorem device_id_past_the_end :
  onAudioDeviceChanged 2
    (mkSys (mkApp (Some 100%nat) None [engine_conn 100%nat]) desk [])
  = Crashed IndexOutOfRange
  /\ Application_ctor (startup desk_stale_channel) = Crashed IndexOutOfRange.
Proof. split; vm_compute; reflexivity. Qed.

(** C10. When the stored engine id names no compiled-in backend, or the
    engine lists no sink, [initUi] reaches [updateTrayIcon] with a null
    [channel_], and the constructor ends in a null-pointer dereference. *)
Theorem startup_without_channel :
  Application_ctor (startup desk_no_engine) = Crashed NullPointerDereference
  /\ Application_ctor (startup desk_no_sinks) = Crashed NullPointerDereference.
Proof. split; vm_compute; reflexivity. Qed.

(** ** Witnesses *)

Lemma same_engine_is_noop_witness :
  engine_ (app booted) = Some 100%nat
  /\ id (world booted) 100%nat = 0
  /\ handle (sigEngineChanged 0) booted = Done tt booted.
Proof.
  split; [reflexivity|]. split; [reflexivity|].
  apply (same_engine_is_noop booted 100%nat 0); reflexivity.
Defined.

Lemma tray_icon_thresholds_witness :
  channel_ (app booted) = Some 8%nat
  /\ exists name : string,
       updateTrayIcon booted =
         Done tt (mkSys (app booted) (react (setIcon name) (world booted))
                        (calls booted ++ [setIcon name]))
       /\ name = "audio-volume-medium"%string.
Proof.
  split; [reflexivity|].
  destruct (tray_icon_thresholds booted 8%nat eq_refl)
    as (name & Hrun & Hname & _).
  exists name. split; [exact Hrun|]. rewrite Hname. reflexivity.
Defined.

Lemma engine_switch_lets_channel_go_witness :
  engine_ (app booted) = Some 100%nat
  /\ id (world booted) 100%nat <> 1
  /\ handle (sigEngineChanged 1) booted =
     install_engine 1 (released 100%nat booted)
  /\ channel_ (app (installed 1 (released 100%nat booted))) = None.
Proof.
  assert (Hid : id (world booted) 100%nat <> 1) by (vm_compute; discriminate).
  split; [reflexivity|]. split; [exact Hid|].
  pose proof (engine_switch_lets_channel_go booted 100%nat 1 eq_refl Hid) as W.
  cbv zeta in W.
  destruct W as (_ & _ & _ & _ & _ & _ & Hh & _ & Hc & _).
  split; [exact Hh | exact Hc].
Defined.

Lemma sink_list_event_rebuilds_device_list_witness :
  reachable (app booted)
  /\ handle (emitted (SEngine 100%nat) emit_sinkListChanged)
            (mkSys (app booted) desk []) =
     Done tt (mkSys (app booted) desk
                    [setDeviceList ["Master"%string; "PCM"%string]]).
Proof.
  assert (Hr : reachable (app booted)).
  { apply (reachable_ctor desk booted). vm_compute. reflexivity. }
  split; [exact Hr|].
  exact (sink_list_event_rebuilds_device_list (app booted) desk [] Hr).
Defined.

Lemma channel_events_reach_menu_and_icon_witness :
  reachable (app booted)
  /\ channel_ (app booted) = Some 8%nat
  /\ handle (emitted (SDevice 8%nat) (emit_volumeChanged 20))
            (mkSys (app booted) desk []) =
     Done tt (Nat.iter 1 (volume_shown 8%nat 20) (mkSys (app booted) desk [])).
Proof.
  assert (Hr : reachable (app booted)).
  { apply (reachable_ctor desk booted). vm_compute. reflexivity. }
  split; [exact Hr|]. split; [reflexivity|].
  pose proof (channel_events_reach_menu_and_icon
                (app booted) 8%nat desk [] Hr eq_refl) as W.
  cbv zeta in W. destruct W as (Hvol & _).
  exact (proj2 (Hvol 20)).
Defined.

(** ** Witnesses of the further properties *)

Lemma booted_reachable : reachable (app booted).
Proof. apply (reachable_ctor desk booted). vm_compute. reflexivity. Defined.

Lemma prefs_changed_without_alsa_witness :
  @USE_ALSA SimWorld SimPulseOnly = false
  /\ @handle SimWorld SimPulseOnly sigPrefsChanged (startup desk) =
     Done tt (mkSys (mkApp None None []) desk
                    [MenuVolume_setPageStep 10; MenuVolume_setSingleStep 1]).
Proof.
  split; [reflexivity|].
  exact (@prefs_changed_without_alsa SimWorld SimPulseOnly (startup desk) eq_refl).
Defined.

Lemma prefs_changed_with_alsa_witness :
  USE_ALSA = true
  /\ engine_ (app booted) = Some 100%nat
  /\ handle sigPrefsChanged (mkSys (app booted) desk []) =
     Done tt (mkSys (app booted) desk
                    [setNormalized 100%nat false; updateDevice 100%nat 8%nat;
                     MenuVolume_setPageStep 10; MenuVolume_setSingleStep 1]).
Proof.
  split; [reflexivity|]. split; [reflexivity|].
  exact (prefs_changed_with_alsa (mkSys (app booted) desk []) 100%nat
                                 eq_refl eq_refl).
Defined.

Lemma engine_change_to_unsupported_id_witness :
  unsupported 5
  /\ (forall e, engine_ (app booted) = Some e -> id (world booted) e <> 5)
  /\ exists s',
       handle (sigEngineChanged 5) booted = Done tt s'
       /\ engine_ (app s') = None
       /\ channel_ (app s') = None.
Proof.
  assert (Hu : unsupported 5) by (split; reflexivity).
  assert (Hid : forall e, engine_ (app booted) = Some e ->
                          id (world booted) e <> 5).
  { intros e He. injection He as <-. vm_compute. discriminate. }
  split; [exact Hu|]. split; [exact Hid|].
  destruct (engine_change_to_unsupported_id booted 5 Hu Hid)
    as (s' & E & He & Hc & _).
  exists s'. split; [exact E|]. split; [exact He|].
  apply Hc. discriminate.
Defined.

Lemma device_change_selects_sink_witness :
  engine_ (app booted) = Some 100%nat
  /\ nth_error (sinks (world booted) 100%nat) (Z.to_nat (Z.max 0 0)) = Some 7%nat
  /\ handle (sigChannelChanged 0) booted =
     Done tt (mkSys (app reselected) (world booted) (calls booted)).
Proof.
  assert (Hnth : nth_error (sinks (world booted) 100%nat)
                           (Z.to_nat (Z.max 0 0)) = Some 7%nat)
    by reflexivity.
  split; [reflexivity|]. split; [exact Hnth|].
  exact (proj1 (device_change_selects_sink booted 100%nat 0 7%nat
                                           eq_refl Hnth)).
Defined.

Lemma device_change_negative_id_witness :
  -3 < 0
  /\ handle (sigChannelChanged (-3)) booted = handle (sigChannelChanged 0) booted.
Proof.
  split; [lia|]. apply (device_change_negative_id booted (-3)). lia.
Defined.

Lemma device_change_without_sinks_witness :
  engine_ (app (startup desk)) = None
  /\ handle (sigChannelChanged 1) (startup desk) = Done tt (startup desk).
Proof.
  split; [reflexivity|].
  apply (device_change_without_sinks (startup desk) 1). left. reflexivity.
Defined.

Lemma device_change_adds_listeners_witness :
  engine_ (app booted) = Some 100%nat
  /\ nth_error (sinks (world booted) 100%nat) (Z.to_nat (Z.max 0 1)) = Some 8%nat
  /\ exists s',
       handle (sigChannelChanged 1) booted = Done tt s'
       /\ listeners 8%nat volumeChanged (app s') = 2%nat
       /\ listeners 7%nat volumeChanged (app s') = 0%nat.
Proof.
  assert (Hnth : nth_error (sinks (world booted) 100%nat)
                           (Z.to_nat (Z.max 0 1)) = Some 8%nat)
    by reflexivity.
  split; [reflexivity|]. split; [exact Hnth|].
  destruct (device_change_adds_listeners booted 100%nat 1 8%nat
                                         eq_refl Hnth)
    as (s' & E & _ & Hn).
  exists s'. split; [exact E|]. split.
  - rewrite (proj1 (Hn 8%nat)). reflexivity.
  - rewrite (proj1 (Hn 7%nat)). reflexivity.
Defined.

Lemma reachable_states_are_wired_witness :
  reachable (app booted)
  /\ filter from_engine (connections (app booted)) = [engine_conn 100%nat].
Proof.
  split; [exact booted_reachable|].
  exact (proj1 (reachable_states_are_wired (app booted) booted_reachable)).
Defined.

Lemma other_events_keep_members_witness :
  exists s',
    assigns_members (sigVolumeChanged 20) = false
    /\ handle (sigVolumeChanged 20) booted = Done tt s'
    /\ app s' = app booted.
Proof.
  pose (s' := match handle (sigVolumeChanged 20) booted with
              | Done _ s0 => s0
              | Crashed _ => booted
              end).
  assert (E : handle (sigVolumeChanged 20) booted = Done tt s')
    by (vm_compute; reflexivity).
  exists s'. split; [reflexivity|]. split; [exact E|].
  exact (other_events_keep_members (sigVolumeChanged 20) booted s' eq_refl E).
Defined.


Lemma startup_with_unsupported_engine_witness :
  backend_for (engineId (world (loaded desk_no_engine))) = None
  /\ Application_ctor (startup desk_no_engine) = Crashed NullPointerDereference.
Proof.
  split; [reflexivity|].
  exact (startup_with_unsupported_engine desk_no_engine eq_refl).
Defined.

Lemma startup_without_sinks_witness :
  backend_for (engineId (world (loaded desk_no_sinks))) = Some AlsaEngine
  /\ sinks (world (created AlsaEngine (loaded desk_no_sinks)))
           (operator_new (world (loaded desk_no_sinks)) AlsaEngine) = []
  /\ Application_ctor (startup desk_no_sinks) = Crashed NullPointerDereference.
Proof.
  split; [reflexivity|]. split; [reflexivity|].
  exact (startup_without_sinks desk_no_sinks AlsaEngine eq_refl eq_refl).
Defined.

Lemma reselected_reachable : reachable (app reselected).
Proof.
  apply (reachable_event (app booted) desk [] (sigChannelChanged 0) reselected).
  - exact booted_reachable.
  - vm_compute. reflexivity.
Defined.

Lemma stale_reachable : reachable (app stale).
Proof.
  apply (reachable_event (app reselected) desk [] (sigEngineChanged 1) stale).
  - exact reselected_reachable.
  - vm_compute. reflexivity.
Defined.

Lemma device_events_are_shown_for_the_channel_witness :
  reachable (app reselected)
  /\ channel_ (app reselected) = Some 7%nat
  /\ handle (emitted (SDevice 8%nat) (emit_volumeChanged 20))
            (mkSys (app reselected) desk []) =
     Done tt (volume_shown 7%nat 20 (mkSys (app reselected) desk [])).
Proof.
  split; [exact reselected_reachable|]. split; [reflexivity|].
  exact (proj1 (device_events_are_shown_for_the_channel
                  (app reselected) 7%nat 8%nat desk []
                  reselected_reachable eq_refl) 20).
Defined.

Lemma former_channel_is_still_heard_witness :
  reachable (app booted)
  /\ channel_ (app booted) = Some 8%nat
  /\ engine_ (app booted) = Some 100%nat
  /\ nth_error (sinks (world booted) 100%nat) (Z.to_nat (Z.max 0 0)) = Some 7%nat
  /\ exists s',
       handle (sigChannelChanged 0) booted = Done tt s'
       /\ channel_ (app s') = Some 7%nat
       /\ (1 <= listeners 8%nat volumeChanged (app s'))%nat.
Proof.
  assert (Hnth : nth_error (sinks (world booted) 100%nat)
                           (Z.to_nat (Z.max 0 0)) = Some 7%nat)
    by reflexivity.
  split; [exact booted_reachable|]. split; [reflexivity|].
  split; [reflexivity|]. split; [exact Hnth|].
  destruct (former_channel_is_still_heard booted 100%nat 0 8%nat 7%nat desk [] 20
              booted_reachable eq_refl eq_refl Hnth)
    as (s' & E & Hc & Hn & _).
  exists s'. split; [exact E|]. split; [exact Hc | exact Hn].
Defined.

Lemma stale_listener_faults_witness :
  reachable (app stale)
  /\ channel_ (app stale) = None
  /\ In (volume_conn 8%nat) (connections (app stale))
  /\ handle (emitted (SDevice 8%nat) (emit_volumeChanged 20)) stale
     = Crashed NullPointerDereference.
Proof.
  assert (Hin : In (volume_conn 8%nat) (connections (app stale))).
  { cbn. right. left. reflexivity. }
  split; [exact stale_reachable|]. split; [reflexivity|].
  split; [exact Hin|].
  exact (stale_listener_faults stale 8%nat 20 eq_refl Hin).
Defined.


Lemma only_the_channel_is_controlled_witness :
  exists s' added,
    handle (sigMuteToggled true) booted = Done tt s'
    /\ calls s' = calls booted ++ added
    /\ forall c d, In c added -> controlled c = Some d ->
                   channel_ (app booted) = Some d.
Proof.
  pose (s' := match handle (sigMuteToggled true) booted with
              | Done _ s0 => s0
              | Crashed _ => booted
              end).
  assert (E : handle (sigMuteToggled true) booted = Done tt s')
    by (vm_compute; reflexivity).
  exists s'.
  destruct (only_the_channel_is_controlled (sigMuteToggled true) booted s' E)
    as (added & Hc & Ha).
  exists added. split; [exact E|]. split; [exact Hc | exact Ha].
Defined.

Lemma only_the_four_icons_are_set_witness :
  exists s' added,
    handle (emitted (SDevice 8%nat) (emit_volumeChanged 0)) booted = Done tt s'
    /\ calls s' = calls booted ++ added
    /\ forall name, In (setIcon name) added -> In name icon_names.
Proof.
  pose (s' := match handle (emitted (SDevice 8%nat) (emit_volumeChanged 0))
                           booted with
              | Done _ s0 => s0
              | Crashed _ => booted
              end).
  assert (E : handle (emitted (SDevice 8%nat) (emit_volumeChanged 0)) booted
              = Done tt s')
    by (vm_compute; reflexivity).
  exists s'.
  destruct (only_the_four_icons_are_set
              (emitted (SDevice 8%nat) (emit_volumeChanged 0)) booted s' E)
    as (added & Hc & Ha).
  exists added. split; [exact E|]. split; [exact Hc | exact Ha].
Defined.

Lemma menu_is_dead_after_engine_switch_witness :
  engine_ (app booted) = Some 100%nat
  /\ id (world booted) 100%nat <> 1
  /\ exists s1,
       handle (sigEngineChanged 1) booted = Done tt s1
       /\ handle (sigVolumeChanged 20) (mkSys (app s1) desk [])
          = Done tt (mkSys (app s1) desk []).
Proof.
  assert (Hid : id (world booted) 100%nat <> 1) by (vm_compute; discriminate).
  split; [reflexivity|]. split; [exact Hid|].
  destruct (menu_is_dead_after_engine_switch booted 100%nat 1 eq_refl Hid)
    as (s1 & E & Hdead).
  exists s1. split; [exact E|].
  exact (proj1 (Hdead desk []) 20).
Defined.

Lemma reselecting_the_channel_doubles_listeners_witness :
  reachable (app booted)
  /\ channel_ (app booted) = Some 8%nat
  /\ engine_ (app booted) = Some 100%nat
  /\ nth_error (sinks (world booted) 100%nat) (Z.to_nat (Z.max 0 1)) = Some 8%nat
  /\ exists s',
       handle (sigChannelChanged 1) booted = Done tt s'
       /\ (2 <= listeners 8%nat volumeChanged (app s'))%nat.
Proof.
  assert (Hnth : nth_error (sinks (world booted) 100%nat)
                           (Z.to_nat (Z.max 0 1)) = Some 8%nat)
    by reflexivity.
  split; [exact booted_reachable|]. split; [reflexivity|].
  split; [reflexivity|]. split; [exact Hnth|].
  destruct (reselecting_the_channel_doubles_listeners booted 100%nat 1 8%nat
              desk [] 20 booted_reachable eq_refl eq_refl Hnth)
    as (s' & E & Hn & _).
  exists s'. split; [exact E | exact Hn].
Defined.


Lemma startup_with_stale_channel_id_witness :
  backend_for (engineId (world (loaded desk_stale_channel))) = Some AlsaEngine
  /\ sinks (world (created AlsaEngine (loaded desk_stale_channel)))
           (operator_new (world (loaded desk_stale_channel)) AlsaEngine) <> []
  /\ Z.of_nat (List.length
                 (sinks (world (created AlsaEngine (loaded desk_stale_channel)))
                        (operator_new (world (loaded desk_stale_channel))
                                      AlsaEngine)))
     <= channelId (world (created AlsaEngine (loaded desk_stale_channel)))
  /\ Application_ctor (startup desk_stale_channel) = Crashed IndexOutOfRange.
Proof.
  assert (Hne : sinks (world (created AlsaEngine (loaded desk_stale_channel)))
                      (operator_new (world (loaded desk_stale_channel))
                                    AlsaEngine) <> [])
    by (vm_compute; discriminate).
  assert (Hge : Z.of_nat (List.length
                 (sinks (world (created AlsaEngine (loaded desk_stale_channel)))
                        (operator_new (world (loaded desk_stale_channel))
                                      AlsaEngine)))
                <= channelId (world (created AlsaEngine
                                             (loaded desk_stale_channel))))
    by (vm_compute; discriminate).
  assert (Hb : backend_for (engineId (world (loaded desk_stale_channel)))
               = Some AlsaEngine) by reflexivity.
  split; [exact Hb|]. split; [exact Hne|]. split; [exact Hge|].
  exact (startup_with_stale_channel_id desk_stale_channel AlsaEngine
                                       Hb Hne Hge).
Defined.
